(** * evaluate_topomaps: quality of topographic map images

    A shallow embedding of [src/evaluate_topomaps.py] and the properties
    of its four functions:

      - [topomap_rescale] and [topomap_blur], the two degradation operators;
      - [topomap_mse], the per-image error curve;
      - [compute_topomap_image_quality], the aggregation over a directory.

    Conventions of the embedding.

      - Python integers are [Z]; a pixel sample is an 8-bit unsigned value
        (numpy dtype uint8), held in a [Z] with its wrap-around modulo 256
        written out where numpy computes in uint8.
      - float64 values are modelled by the exact rational they stand for
        ([Q], compared with [==]); rounding is not modelled, and NaN appears
        only where the program makes one (the mean over no rows).
      - An exception is a value of [exn]; a computation that may raise has a
        result of type [Res].  Code that reads files, allocates images or
        draws figures runs in the monad [M] over the state [World].
      - Pillow, numpy, matplotlib, pdf2image and scikit-learn are not part of
        the program.  Their calls are modelled after their documented
        behaviour in the modules [PIL], [np], [plt] and [sklearn]; the pixel
        values produced by Pillow's resampling and blur filters and the
        raster of a saved figure are left abstract in the class [Imaging]. *)

From Stdlib Require Import ZArith QArith Lia Lqa Ascii String.
From stdpp Require Import base gmap strings list.

Open Scope Z_scope.

(** ** Exceptions and results *)

Inductive exn : Type :=
  | PDFPageCountError            (* pdf2image: the path cannot be read as a document *)
  | FileNotFoundError            (* os.listdir of a missing directory, savefig to a missing one *)
  | IndexError                   (* list index out of range *)
  | TypeError_not_callable       (* 'NoneType' object is not callable *)
  | TypeError_not_subscriptable  (* 'Axes' object is not subscriptable *)
  | TypeError_not_iterable       (* 'numpy.float64' object is not iterable *)
  | ValueError_resize            (* Pillow: height and width must be > 0 *)
  | OverflowError                (* a Python int does not fit the C type of an argument *)
  | MemoryError                  (* Pillow cannot allocate the image *)
  | ValueError_closed_image      (* Pillow: operation on closed image *)
  | ValueError_broadcast         (* numpy: operands could not be broadcast together *)
  | ValueError_inhomogeneous     (* numpy: inhomogeneous shape *)
  | ValueError_auc.              (* scikit-learn: auc refuses its arguments *)

Inductive Res (A : Type) : Type :=
  | Ok (a : A)
  | Err (e : exn).
Arguments Ok {A} a.
Arguments Err {A} e.

#[global] Instance Res_ret : MRet Res := @Ok.
#[global] Instance Res_bind : MBind Res := fun A B f r =>
  match r with
  | Ok a => f a
  | Err e => Err e
  end.

Definition is_Ok {A} (r : Res A) : Prop := exists a, r = Ok a.

(** ** Python strings and paths *)

Module Py.

(** [s.split(sep)] for a one-character separator: every occurrence
    cuts, so the result always has at least one piece. *)
Fixpoint split (sep : ascii) (s : string) : list string :=
  match s with
  | EmptyString => [EmptyString]
  | String c rest =>
      if decide (c = sep) then EmptyString :: split sep rest
      else match split sep rest with
           | piece :: pieces => String c piece :: pieces
           | [] => [String c EmptyString]
           end
  end.

(** [l[-1]] *)
Definition index_last {A} (l : list A) : Res A :=
  match last l with
  | Some x => Ok x
  | None => Err IndexError
  end.

(** [l[0]] *)
Definition index_first {A} (l : list A) : Res A :=
  match l with
  | x :: _ => Ok x
  | [] => Err IndexError
  end.

(** [s[:-4]]: everything but the last four characters; the empty
    string when [s] has fewer than five. *)
Definition drop_last4 (s : string) : string :=
  String.substring 0 (String.length s - 4) s.

Definition startswith (p s : string) : bool := String.prefix p s.

Definition endswith_sep (s : string) : bool :=
  match String.get (String.length s - 1) s with
  | Some c => bool_decide (c = "/"%char)
  | None => false
  end.

(** [os.path.join(a, b)] on POSIX. *)
Definition os_path_join (a b : string) : string :=
  if startswith "/" b then b
  else if bool_decide (a = "") || endswith_sep a then a +:+ b
  else a +:+ "/" +:+ b.

End Py.

(** ** Pillow images *)

Module PIL.

Inductive Mode : Type := L | RGB | RGBA.

#[global] Instance Mode_eq_dec : EqDecision Mode.
Proof. solve_decision. Defined.

Definition bands (m : Mode) : Z :=
  match m with
  | L => 1
  | RGB => 3
  | RGBA => 4
  end.

(** An image: its mode, its [size] as (width, height), and its samples
    in row-major order, [bands] of them per pixel. *)
Record Image : Type := mkImage {
  mode : Mode;
  size : Z * Z;
  samples : list Z
}.

Definition is_byte (v : Z) : Prop := 0 <= v < 256.

(** Whether a Python int fits a C [int], the type of the width and the
    height that [resize] hands to the C core. *)
Definition c_int (v : Z) : bool := (- 2 ^ 31 <=? v) && (v <=? 2 ^ 31 - 1).

Record wf (img : Image) : Prop := {
  wf_width : 0 < fst (size img);
  wf_height : 0 < snd (size img);
  wf_length :
    Z.of_nat (length (samples img)) = fst (size img) * snd (size img) * bands (mode img);
  wf_bytes : Forall is_byte (samples img)
}.

End PIL.

(** ** numpy arrays *)

Module np.

(** An array of dtype uint8: its shape and its elements in C order. *)
Record ndarray : Type := mkArray {
  shape : list Z;
  data : list Z
}.

#[global] Instance ndarray_eq_dec : EqDecision ndarray.
Proof. solve_decision. Defined.

(** [np.asarray(img)] of a Pillow image: (height, width) for a
    single-band image, (height, width, bands) otherwise. *)
Definition asarray_image (img : PIL.Image) : ndarray :=
  let '(w, h) := PIL.size img in
  {| shape := match PIL.mode img with
              | PIL.L => [h; w]
              | m => [h; w; PIL.bands m]
              end;
     data := PIL.samples img |}.

(** The number of elements a shape asks for. *)
Definition numel (shape : list Z) : Z := foldr Z.mul 1 shape.

(** A pixel array: as many elements as its shape asks for, each of
    them a byte. *)
Record wf (a : ndarray) : Prop := {
  wf_numel : Z.of_nat (length (data a)) = numel (shape a);
  wf_uint8 : Forall PIL.is_byte (data a)
}.

Definition wrap8 (v : Z) : Z := v mod 256.

Fixpoint zip_with8 (f : Z -> Z -> Z) (xs ys : list Z) : list Z :=
  match xs, ys with
  | x :: xs', y :: ys' => wrap8 (f x y) :: zip_with8 f xs' ys'
  | _, _ => []
  end.

(** [a - b] on uint8 arrays: elementwise, modulo 256.  Arrays of
    different shapes are broadcast by numpy when compatible; the
    program only subtracts arrays of one shape, and the model raises
    otherwise. *)
Definition subtract (a b : ndarray) : Res ndarray :=
  if decide (shape a = shape b)
  then Ok {| shape := shape a; data := zip_with8 Z.sub (data a) (data b) |}
  else Err ValueError_broadcast.

(** [np.square(a)] keeps the dtype: the square is taken modulo 256. *)
Definition square (a : ndarray) : ndarray :=
  {| shape := shape a; data := map (fun v => wrap8 (v * v)) (data a) |}.

Definition sumQ (l : list Q) : Q := foldr Qplus 0%Q l.

(** [a.mean()] of an integer array accumulates in float64.  (Of an
    array without elements numpy gives NaN; images have at least one
    pixel, and the model's quotient is 0 there.) *)
Definition mean (a : ndarray) : Q :=
  (sumQ (map inject_Z (data a)) / inject_Z (Z.of_nat (length (data a))))%Q.

(** [np.zeros(n)] *)
Definition zeros (n : nat) : list Q := replicate n 0%Q.

(** [np.arange(n)] *)
Definition arange (n : nat) : list Z := map Z.of_nat (seq 0 n).

(** float64 arrays of the aggregation: a scalar ([None] is NaN), a
    vector, or a matrix given by its rows. *)
Inductive farray : Type :=
  | FScalar (x : option Q)
  | FVector (v : list Q)
  | FMatrix (rows : list (list Q)).

(** [np.array(rows)] of a list of vectors: the empty list gives an
    empty vector, rows of one length give a matrix. *)
Definition array (rows : list (list Q)) : Res farray :=
  match rows with
  | [] => Ok (FVector [])
  | r :: rest =>
      if forallb (fun r' => Nat.eqb (length r') (length r)) rest
      then Ok (FMatrix rows)
      else Err ValueError_inhomogeneous
  end.

Fixpoint add_rows (xs ys : list Q) : list Q :=
  match xs, ys with
  | x :: xs', y :: ys' => (x + y)%Q :: add_rows xs' ys'
  | _, _ => []
  end.

Definition count (n : nat) : Q := inject_Z (Z.of_nat n).

(** [np.mean(a, axis=0)]: add.reduce along the first axis, divided by
    its length; NaN when there is nothing to reduce. *)
Definition mean_axis0 (a : farray) : farray :=
  match a with
  | FScalar x => FScalar x
  | FVector [] => FScalar None
  | FVector v => FScalar (Some (sumQ v / count (length v))%Q)
  | FMatrix [] => FScalar None
  | FMatrix (r :: rest) =>
      FVector (map (fun s => (s / count (S (length rest)))%Q)
                   (foldl add_rows r rest))
  end.

(** [list(a)] *)
Definition to_list (a : farray) : Res (list Q) :=
  match a with
  | FScalar _ => Err TypeError_not_iterable
  | FVector v => Ok v
  | FMatrix _ => Err TypeError_not_iterable
  end.

(** [np.diff(x)] *)
Fixpoint diff (x : list Z) : list Z :=
  match x with
  | a :: (b :: _) as rest => (b - a) :: diff rest
  | _ => []
  end.

(** [np.trapz(y, x)]: sum of d * (y[1:] + y[:-1]) / 2. *)
Fixpoint trapz (y : list Q) (x : list Z) : Q :=
  match y, x with
  | y0 :: (y1 :: _) as y', x0 :: (x1 :: _) as x' =>
      (inject_Z (x1 - x0) * (y1 + y0) / 2 + trapz y' x')%Q
  | _, _ => 0%Q
  end.

End np.

(** ** matplotlib figures *)

Module plt.

(** One subplot: the array shown in it and whether its tick marks
    were removed. *)
Record Panel : Type := mkPanel {
  shown : option np.ndarray;
  xticks_off : bool;
  yticks_off : bool
}.

Definition blank : Panel := mkPanel None false false.

(** What [plt.subplots(nrow, ncol)] returns: the figure's panels, and
    whether [axes] is a single Axes object rather than an array of them
    (matplotlib squeezes a 1 x 1 grid to a scalar). *)
Record Subplots : Type := mkSubplots {
  panels : list Panel;
  scalar_axes : bool
}.

Definition subplots (nrow ncol : nat) : Subplots :=
  {| panels := replicate (nrow * ncol) blank;
     scalar_axes := bool_decide (nrow * ncol = 1)%nat |}.

(** [axes[i].method(...)]: subscripting a single Axes object raises. *)
Definition on_axes (sp : Subplots) (i : nat) (f : Panel -> Panel) : Res Subplots :=
  if scalar_axes sp then Err TypeError_not_subscriptable
  else match panels sp !! i with
       | Some p => Ok {| panels := <[i := f p]> (panels sp); scalar_axes := false |}
       | None => Err IndexError
       end.

Definition imshow (arr : np.ndarray) (p : Panel) : Panel :=
  {| shown := Some arr; xticks_off := xticks_off p; yticks_off := yticks_off p |}.

Definition set_xticks_empty (p : Panel) : Panel :=
  {| shown := shown p; xticks_off := true; yticks_off := yticks_off p |}.

Definition set_yticks_empty (p : Panel) : Panel :=
  {| shown := shown p; xticks_off := xticks_off p; yticks_off := true |}.

End plt.

(** A saved comparison document is the list of its panels. *)
Abbreviation Figure := (list plt.Panel).

(** The numeric kernels of Pillow, its limits, and the rasterizer
    behind a saved figure.  [resample img w h] is the sample data of
    [img] resized to [w] x [h] with the default filter, [gaussian img r]
    the data of [img] blurred with [ImageFilter.GaussianBlur(r)],
    [render fig] the one page that pdf2image reads back from a figure
    saved as a document.  [fits w h] tells whether Pillow can allocate an
    image of [w] x [h] (its own size limits and the memory at hand), and
    [refuses img r] is the exception, if any, with which the blur of
    [img] with radius [r] ends (a radius that no C float holds, an image
    that cannot be allocated). *)
Class Imaging : Type := {
  resample : PIL.Image -> Z -> Z -> list Z;
  gaussian : PIL.Image -> Z -> list Z;
  render : Figure -> PIL.Image;
  fits : Z -> Z -> bool;
  refuses : PIL.Image -> Z -> option exn
}.

(** What Pillow's kernels promise: the samples of a resized or blurred
    image are bytes, as many as its size and its bands ask for. *)
Record Lawful `{Imaging} : Prop := {
  resample_wf img w h :
    0 < w -> 0 < h ->
    PIL.wf (PIL.mkImage (PIL.mode img) (w, h) (resample img w h));
  gaussian_wf img r :
    PIL.wf img ->
    PIL.wf (PIL.mkImage (PIL.mode img) (PIL.size img) (gaussian img r))
}.

(** ** The world: files, image objects, pyplot *)

(** A file that pdf2image can read: a source document with its pages,
    or a comparison document written by [savefig]. *)
Inductive File : Type :=
  | SourceDoc (pages : list PIL.Image)
  | FigureDoc (fig : Figure).

(** A Pillow image object: its content and whether [close()] was called. *)
Record PILObject : Type := mkObject {
  content : PIL.Image;
  closed : bool
}.

Record World : Type := mkWorld {
  fs : gmap string File;                (* readable documents by path *)
  listing : gmap string (list string);  (* os.listdir, by directory *)
  writable : string -> bool;            (* paths savefig can create *)
  heap : list PILObject;                (* image objects, by address *)
  figures : nat                         (* figures open in pyplot *)
}.

Definition set_fs (f : gmap string File) (w : World) : World :=
  mkWorld f (listing w) (writable w) (heap w) (figures w).
Definition set_heap (h : list PILObject) (w : World) : World :=
  mkWorld (fs w) (listing w) (writable w) h (figures w).
Definition set_figures (n : nat) (w : World) : World :=
  mkWorld (fs w) (listing w) (writable w) (heap w) n.

(** Computations over the world that may raise.  The world at the
    moment of the exception is kept: Python does not roll back. *)
Definition M (A : Type) : Type := World -> Res A * World.

#[global] Instance M_ret : MRet M := fun A a w => (Ok a, w).
#[global] Instance M_bind : MBind M := fun A B f m w =>
  match m w with
  | (Ok a, w') => f a w'
  | (Err e, w') => (Err e, w')
  end.

Definition raise {A} (e : exn) : M A := fun w => (Err e, w).

Definition lift {A} (r : Res A) : M A := fun w => (r, w).

(** ** scikit-learn *)

Module sklearn.

(** [sklearn.metrics.auc(x, y)]: the trapezoidal rule, for at least two
    points and a monotonic [x]; the sign follows the direction of [x]. *)
Definition auc (x : list Z) (y : list Q) : Res Q :=
  if negb (Nat.eqb (length x) (length y)) then Err ValueError_auc
  else if Nat.ltb (length x) 2 then Err ValueError_auc
  else
    let dx := np.diff x in
    if existsb (fun d => d <? 0) dx then
      if forallb (fun d => d <=? 0) dx
      then Ok (inject_Z (-1) * np.trapz y x)%Q
      else Err ValueError_auc
    else Ok (inject_Z 1 * np.trapz y x)%Q.

End sklearn.

(** ** The program *)

Section Program.

Context `{Imaging}.

(** *** Library calls that touch the world *)

(** A new image object; its address is the next free one. *)
Definition PIL_new (img : PIL.Image) : M nat := fun w =>
  (Ok (length (heap w)), set_heap (heap w ++ [mkObject img false]) w).

(** Pillow loads the pixel data before it works on an image, which a
    closed image refuses.  (Addresses come from [PIL_new], so the
    lookup does not miss in a run of the program.) *)
Definition PIL_load (img : nat) : M PIL.Image := fun w =>
  match heap w !! img with
  | Some o => if closed o then (Err ValueError_closed_image, w) else (Ok (content o), w)
  | None => (Err ValueError_closed_image, w)
  end.

(** [img.size] *)
Definition Image_size (img : nat) : M (Z * Z) := fun w =>
  match heap w !! img with
  | Some o => (Ok (PIL.size (content o)), w)
  | None => (Err ValueError_closed_image, w)
  end.

(** The exception, if any, with which [resize] refuses a size: the
    width and the height are parsed as C ints, then must be at least 1,
    then the image must be allocated. *)
Definition resize_refusal (size : Z * Z) : option exn :=
  if negb (PIL.c_int (fst size) && PIL.c_int (snd size)) then Some OverflowError
  else if (fst size <? 1) || (snd size <? 1) then Some ValueError_resize
  else if negb (fits (fst size) (snd size)) then Some MemoryError
  else None.

(** [img.resize(size)]: a new image of the requested size. *)
Definition Image_resize (img : nat) (size : Z * Z) : M nat :=
  im ← PIL_load img;
  match resize_refusal size with
  | Some e => raise e
  | None =>
      PIL_new (PIL.mkImage (PIL.mode im) size (resample im (fst size) (snd size)))
  end.

(** [img.filter(ImageFilter.GaussianBlur(radius))]: a new image of the
    same size. *)
Definition Image_filter_GaussianBlur (img : nat) (radius : Z) : M nat :=
  im ← PIL_load img;
  match refuses im radius with
  | Some e => raise e
  | None => PIL_new (PIL.mkImage (PIL.mode im) (PIL.size im) (gaussian im radius))
  end.

(** [np.asarray(img)]: a new array with the image's samples. *)
Definition np_asarray (img : nat) : M np.ndarray :=
  im ← PIL_load img;
  mret (np.asarray_image im).

(** [img.close()] *)
Definition Image_close (img : nat) : M unit := fun w =>
  match heap w !! img with
  | Some o => (Ok tt, set_heap (<[img := mkObject (content o) true]> (heap w)) w)
  | None => (Ok tt, w)
  end.

(** [convert_from_path(path)]: one new image object per page. *)
Definition convert_from_path (path : string) : M (list nat) := fun w =>
  match fs w !! path with
  | Some f =>
      let pages := match f with
                   | SourceDoc pages => pages
                   | FigureDoc fig => [render fig]
                   end in
      (Ok (seq (length (heap w)) (length pages)),
       set_heap (heap w ++ map (fun p => mkObject p false) pages) w)
  | None => (Err PDFPageCountError, w)
  end.

(** [os.listdir(dir)] *)
Definition os_listdir (dir : string) : M (list string) := fun w =>
  match listing w !! dir with
  | Some names => (Ok names, w)
  | None => (Err FileNotFoundError, w)
  end.

(** [plt.subplots(nrow, ncol, ...)] registers a new figure in pyplot. *)
Definition plt_subplots (nrow ncol : nat) : M plt.Subplots := fun w =>
  (Ok (plt.subplots nrow ncol), set_figures (S (figures w)) w).

(** [fig.savefig(path, format='pdf', ...)] *)
Definition savefig (path : string) (fig : plt.Subplots) : M unit := fun w =>
  if writable w path
  then (Ok tt, set_fs (<[path := FigureDoc (plt.panels fig)]> (fs w)) w)
  else (Err FileNotFoundError, w).

(** [plt.close(fig)] *)
Definition plt_close : M unit := fun w =>
  (Ok tt, set_figures (Nat.pred (figures w)) w).

(** *** Degradation operators *)

Definition topomap_rescale (img : nat) (shrink_size : Z) : M np.ndarray :=
  let shrink_size := 55 - (shrink_size * 5) in
  res_img ← Image_resize img (shrink_size, shrink_size);
  size ← Image_size img;
  res_img_big ← Image_resize res_img size;
  arr_img_rescaled ← np_asarray res_img_big;
  mret arr_img_rescaled.

Definition topomap_blur (img : nat) (radius : Z) : M np.ndarray :=
  let radius := (radius * 2) + 2 in
  blur_img ← Image_filter_GaussianBlur img radius;
  arr_img_blurred ← np_asarray blur_img;
  mret arr_img_blurred.

(** *** Per-image error curve *)

(** The operator chosen by [metric]; [None] when the name is neither. *)
Definition select_fn (metric : string) : option (nat -> Z -> M np.ndarray) :=
  if decide (metric = "resize_mse") then Some topomap_rescale
  else if decide (metric = "blur_mse") then Some topomap_blur
  else None.

(** Calling [img_manipulation_fn]: calling [None] raises. *)
Definition call_fn (fn : option (nat -> Z -> M np.ndarray)) (img : nat) (param : Z)
  : M np.ndarray :=
  match fn with
  | Some f => f img param
  | None => raise TypeError_not_callable
  end.

(** [axes[i].imshow(arr); axes[i].set_xticks([]); axes[i].set_yticks([])] *)
Definition show (axes : plt.Subplots) (i : nat) (arr : np.ndarray) : Res plt.Subplots :=
  axes ← plt.on_axes axes i (plt.imshow arr);
  axes ← plt.on_axes axes i plt.set_xticks_empty;
  plt.on_axes axes i plt.set_yticks_empty.

(** [np.square(arr_img - arr_img_changed).mean()] *)
Definition square_error_mean (arr_img arr_img_changed : np.ndarray) : Res Q :=
  d ← np.subtract arr_img arr_img_changed;
  mret (np.mean (np.square d)).

(** The loop over [enumerate(params)].  [axes] is the figure when
    [output_dir] is not [None], and [None] otherwise. *)
Fixpoint mse_loop (fn : option (nat -> Z -> M np.ndarray)) (img : nat)
    (arr_img : np.ndarray) (i : nat) (params : list Z)
    (axes : option plt.Subplots) (errs : list Q)
  : M (option plt.Subplots * list Q) :=
  match params with
  | [] => mret (axes, errs)
  | param :: rest =>
      arr_img_changed ← call_fn fn img param;
      axes ← match axes with
             | Some a => a' ← lift (show a (i + 1) arr_img_changed); mret (Some a')
             | None => mret None
             end;
      err ← lift (square_error_mean arr_img arr_img_changed);
      mse_loop fn img arr_img (S i) rest axes (<[i := err]> errs)
  end.

Definition topomap_mse (image_path metric : string) (params : list Z)
    (output_dir : option string) : M (list Q) :=
  pages ← convert_from_path image_path;
  img ← lift (Py.index_first pages);
  arr_img ← np_asarray img;
  axes ← match output_dir with
         | Some _ =>
             let nrow := 1%nat in
             let ncol := (length params + 1)%nat in
             axes ← plt_subplots nrow ncol;
             axes ← lift (show axes 0 arr_img);
             mret (Some axes)
         | None => mret None
         end;
  let img_manipulation_fn := select_fn metric in
  let errs := np.zeros (length params) in
  '(axes, errs) ← mse_loop img_manipulation_fn img arr_img 0 params axes errs;
  match output_dir, axes with
  | Some dir, Some fig =>
      name ← lift (Py.index_last (Py.split "/" image_path));
      savefig (Py.os_path_join dir (Py.drop_last4 name +:+ "_" +:+ metric +:+ ".pdf")) fig;;
      plt_close
  | _, _ => mret tt
  end;;
  Image_close img;;
  mret errs.

(** *** Aggregation over a directory *)

Fixpoint collect (image_dir metric : string) (params : list Z)
    (output_dir : option string) (image_paths : list string)
    (group_errors : list (list Q)) : M (list (list Q)) :=
  match image_paths with
  | [] => mret group_errors
  | image_path :: rest =>
      errs ← topomap_mse (Py.os_path_join image_dir image_path) metric params output_dir;
      collect image_dir metric params output_dir rest (group_errors ++ [errs])
  end.

(** Lines 105 to 112: from the table of error curves to the result. *)
Definition aggregate (group_errors : list (list Q)) (return_auc : bool) : Res (list Q) :=
  group_errors ← np.array group_errors;
  quality_values ← np.to_list (np.mean_axis0 group_errors);
  if return_auc then
    mse_auc ← sklearn.auc (np.arange (length quality_values)) quality_values;
    mret (quality_values ++ [mse_auc])
  else mret quality_values.

Definition compute_topomap_image_quality (image_dir metric : string)
    (params : list Z) (return_auc : bool) (output_dir : option string)
  : M (list Q) :=
  image_paths ← os_listdir image_dir;
  group_errors ← collect image_dir metric params output_dir image_paths [];
  lift (aggregate group_errors return_auc).

End Program.

(** ** Descriptions used in the statements

    The worlds, images and arrays that a run produces, the two recognized
    metrics, and the quantities of the specification that the theorems
    compare the program with. *)

Section Descriptions.

Context `{Imaging}.

(** [alloc w imgs] is [w] with new open image objects for [imgs]. *)
Definition alloc (w : World) (imgs : list PIL.Image) : World :=
  set_heap (heap w ++ map (fun p => mkObject p false) imgs) w.

(** The image a live object holds. *)
Definition live (w : World) (img : nat) (im : PIL.Image) : Prop :=
  heap w !! img = Some (mkObject im false).

(** The images and the array the two operators make from an image. *)
Definition target (level : Z) : Z := 55 - 5 * level.

Definition blur_radius (level : Z) : Z := 2 * level + 2.

Definition shrunk (im : PIL.Image) (level : Z) : PIL.Image :=
  PIL.mkImage (PIL.mode im) (target level, target level)
    (resample im (target level) (target level)).

Definition rescaled (im : PIL.Image) (level : Z) : PIL.Image :=
  PIL.mkImage (PIL.mode im) (PIL.size im)
    (resample (shrunk im level) (fst (PIL.size im)) (snd (PIL.size im))).

Definition blurred (im : PIL.Image) (level : Z) : PIL.Image :=
  PIL.mkImage (PIL.mode im) (PIL.size im) (gaussian im (blur_radius level)).

(** The mean squared error as the docstring of [topomap_mse] names it:
    the squared differences of the samples, taken as integers, averaged
    over the whole array. *)
Definition squared_differences (ref deg : list Z) : list Z :=
  zip_with (fun r d => (r - d) * (r - d)) ref deg.

Definition sumZ (l : list Z) : Z := foldr Z.add 0 l.

Definition mean_squared_error (ref deg : np.ndarray) : Q :=
  (inject_Z (sumZ (squared_differences (np.data ref) (np.data deg)))
   / np.count (length (np.data ref)))%Q.

(** What line 73 adds up instead: every squared difference modulo 256. *)
Definition wrapped_squares (ref deg : list Z) : list Z :=
  zip_with (fun r d => ((r - d) * (r - d)) mod 256) ref deg.

(** The panel of a shown array, its ticks removed. *)
Definition panel_of (arr : np.ndarray) : plt.Panel := plt.mkPanel (Some arr) true true.

(** The pages pdf2image reads from a file. *)
Definition pages_of (f : File) : list PIL.Image :=
  match f with
  | SourceDoc pages => pages
  | FigureDoc fig => [render fig]
  end.

(** [path] can be read and its first page is [im]. *)
Definition first_page (w : World) (path : string) (im : PIL.Image) : Prop :=
  exists f rest, fs w !! path = Some f /\ pages_of f = im :: rest.

(** The two recognized metrics. *)
Inductive Metric : Type := Resize | Blur.

Definition metric_name (k : Metric) : string :=
  match k with
  | Resize => "resize_mse"
  | Blur => "blur_mse"
  end.

Definition recognized (metric : string) : Prop :=
  metric = "resize_mse" \/ metric = "blur_mse".

Definition operator (k : Metric) : nat -> Z -> M np.ndarray :=
  match k with
  | Resize => topomap_rescale
  | Blur => topomap_blur
  end.

(** The array an operator returns for an image, and the image objects
    it allocates on the way. *)
Definition degraded (k : Metric) (im : PIL.Image) (level : Z) : np.ndarray :=
  match k with
  | Resize => np.asarray_image (rescaled im level)
  | Blur => np.asarray_image (blurred im level)
  end.

Definition allocated (k : Metric) (im : PIL.Image) (level : Z) : list PIL.Image :=
  match k with
  | Resize => [shrunk im level; rescaled im level]
  | Blur => [blurred im level]
  end.

(** The levels an operator accepts on an image: for the
    downscale-upscale operator, those for which Pillow refuses neither
    the square of side 55 - 5 * level nor the size of the image; for the
    blur, those whose radius 2 * level + 2 Pillow does not refuse. *)
Definition valid (k : Metric) (im : PIL.Image) (level : Z) : Prop :=
  match k with
  | Resize => resize_refusal (target level, target level) = None
              /\ resize_refusal (PIL.size im) = None
  | Blur => refuses im (blur_radius level) = None
  end.

(** The error the program records for a level: line 73 on the
    reference and the degraded array. *)
Definition err_of (k : Metric) (im : PIL.Image) (level : Z) : Q :=
  let sq := wrapped_squares (PIL.samples im) (np.data (degraded k im level)) in
  (np.sumQ (map inject_Z sq) / np.count (length sq))%Q.

(** The figure, when there is one: the panels drawn so far, followed
    by those still blank. *)
Definition axes_of (drawn : option (list plt.Panel)) (rest : list plt.Panel)
  : option plt.Subplots :=
  (fun d => plt.mkSubplots (d ++ rest) false) <$> drawn.

(** The last component of a path: [path.split("/")[-1]]. *)
Definition file_name (path : string) : string :=
  default EmptyString (last (Py.split "/" path)).

(** Where [topomap_mse] saves the comparison document. *)
Definition output_path (dir image_path metric : string) : string :=
  Py.os_path_join dir (Py.drop_last4 (file_name image_path) +:+ "_" +:+ metric +:+ ".pdf").

(** The world after [img.close()]. *)
Definition close_image (img : nat) (im : PIL.Image) (w : World) : World :=
  set_heap (<[img := mkObject im true]> (heap w)) w.

(** The world after a run without [output_dir]. *)
Definition after_plain (w : World) (im : PIL.Image) (rest new : list PIL.Image) : World :=
  close_image (length (heap w)) im (alloc w ((im :: rest) ++ new)).

(** The world after a run that saves its figure under [out]. *)
Definition after_saved (w : World) (im : PIL.Image) (rest new : list PIL.Image)
    (out : string) (fig : Figure) : World :=
  close_image (length (heap w)) im
    (set_fs (<[out := FigureDoc fig]> (fs w)) (alloc w ((im :: rest) ++ new))).

(** The panels of the comparison document: the reference, then one
    degraded image per level. *)
Definition comparison (k : Metric) (im : PIL.Image) (params : list Z) : Figure :=
  panel_of (np.asarray_image im) :: map (fun p => panel_of (degraded k im p)) params.

(** What it means for an operator to leave its input alone and to
    return a new array of the input's shape: it succeeds; every image
    object of the world before is still there, unchanged, and no file
    changed; the array returned has the shape of the input's array, is a
    pixel array (as many bytes as the shape asks for, as many as the
    input has samples), and holds the samples of an image object that
    did not exist before, well-formed and of the size and the mode of the
    input. *)
Definition materializes (op : nat -> Z -> M np.ndarray) (w : World) (img : nat)
    (im : PIL.Image) (level : Z) : Prop :=
  exists arr w',
    op img level w = (Ok arr, w') /\
    (forall a o, heap w !! a = Some o -> heap w' !! a = Some o) /\
    live w' img im /\
    fs w' = fs w /\
    np.shape arr = np.shape (np.asarray_image im) /\
    np.wf arr /\
    length (np.data arr) = length (PIL.samples im) /\
    exists fresh new,
      heap w !! fresh = None /\ live w' fresh new /\ arr = np.asarray_image new
      /\ PIL.wf new /\ PIL.size new = PIL.size im /\ PIL.mode new = PIL.mode im.

(** Following the spec's words: the filename without its extension,
    cut as [os.path.splitext] cuts it, at the last dot that has a
    character other than a dot before it. *)
Fixpoint before_last_dot (s : string) : option string :=
  match s with
  | EmptyString => None
  | String c rest =>
      match before_last_dot rest with
      | Some stem => Some (String c stem)
      | None => if decide (c = "."%char) then Some EmptyString else None
      end
  end.

Fixpoint only_dots (s : string) : bool :=
  match s with
  | EmptyString => true
  | String c rest => bool_decide (c = "."%char) && only_dots rest
  end.

Definition without_extension (name : string) : string :=
  match before_last_dot name with
  | Some stem => if only_dots stem then name else stem
  | None => name
  end.

(** Following the spec's words: the column [j] of the table of error
    curves, its mean, and the trapezoidal rule over the indices
    0, 1, ..., len - 1. *)
Definition column (table : list (list Q)) (j : nat) : list Q :=
  map (fun row => nth j row 0%Q) table.

Definition column_mean (table : list (list Q)) (j : nat) : Q :=
  (np.sumQ (column table j) / np.count (length table))%Q.

Fixpoint trapezoid (y : list Q) : Q :=
  match y with
  | y0 :: (y1 :: _) as rest => ((y0 + y1) / 2 + trapezoid rest)%Q
  | _ => 0%Q
  end.

(** [r] is a vector whose values are those of [expected]. *)
Definition same_values (r : Res (list Q)) (expected : list Q) : Prop :=
  exists qs, r = Ok qs /\ Forall2 Qeq qs expected.

(** The rows of a table all have [n] entries. *)
Definition rectangular (n : nat) (table : list (list Q)) : Prop :=
  Forall (fun row => length row = n) table.

(** The error curves of the entries of a directory, computed one after
    the other: each run starts in the world the previous one left. *)
Inductive curves (image_dir metric : string) (params : list Z)
    (output_dir : option string)
  : list string -> World -> list (list Q) -> World -> Prop :=
  | curves_nil w : curves image_dir metric params output_dir [] w [] w
  | curves_cons name names w errs w1 table w2 :
      topomap_mse (Py.os_path_join image_dir name) metric params output_dir w
        = (Ok errs, w1) ->
      curves image_dir metric params output_dir names w1 table w2 ->
      curves image_dir metric params output_dir (name :: names) w (errs :: table) w2.

End Descriptions.

(** ** A concrete imaging back end

    Nearest-neighbour resampling and a box blur: simple kernels, used
    to run the program on concrete images. *)

Module Simple.

Definition clip (v : Z) : Z := Z.min 255 (Z.max 0 v).

Definition sample_at (img : PIL.Image) (x y k : Z) : Z :=
  let w := fst (PIL.size img) in
  let b := PIL.bands (PIL.mode img) in
  clip (nth (Z.to_nat ((y * w + x) * b + k)) (PIL.samples img) 0).

(** The coordinates of the [i]-th sample of a [w]-wide image with [b] bands. *)
Definition coords (w b : Z) (i : nat) : Z * Z * Z :=
  let i := Z.of_nat i in
  (i / b mod w, i / b / w, i mod b).

Definition nearest (img : PIL.Image) (w h : Z) : list Z :=
  let b := PIL.bands (PIL.mode img) in
  let '(w0, h0) := PIL.size img in
  map (fun i => let '(x, y, k) := coords w b i in
                sample_at img (x * w0 / w) (y * h0 / h) k)
      (seq 0 (Z.to_nat (w * h * b))).

Definition clamp (lo hi v : Z) : Z := Z.max lo (Z.min hi v).

Definition offsets (r : Z) : list Z :=
  map (fun d => Z.of_nat d - r) (seq 0 (Z.to_nat (2 * r + 1))).

Definition box (img : PIL.Image) (radius : Z) : list Z :=
  let b := PIL.bands (PIL.mode img) in
  let '(w0, h0) := PIL.size img in
  let r := Z.abs radius in
  map (fun i => let '(x, y, k) := coords w0 b i in
                let window :=
                  flat_map (fun dy => map (fun dx =>
                    sample_at img (clamp 0 (w0 - 1) (x + dx)) (clamp 0 (h0 - 1) (y + dy)) k)
                    (offsets r)) (offsets r) in
                clip (foldr Z.add 0 window / Z.of_nat (length window)))
      (seq 0 (Z.to_nat (w0 * h0 * b))).

Definition blank_page : PIL.Image := PIL.mkImage PIL.L (1, 1) [255].

(** The simple back end allocates images of up to 4096 x 4096 and
    blurs with radii below 1024. *)
Definition roomy (w h : Z) : bool := (w <=? 4096) && (h <=? 4096).

Definition too_wide (_ : PIL.Image) (radius : Z) : option exn :=
  if Z.abs radius <? 1024 then None else Some OverflowError.

#[export] Instance imaging : Imaging := {|
  resample := nearest;
  gaussian := box;
  render := fun _ => blank_page;
  fits := roomy;
  refuses := too_wide
|}.

End Simple.

(** ** Concrete images and worlds *)

Module Sample.

(** A 2 x 2 grey checkerboard. *)
Definition checker : PIL.Image := PIL.mkImage PIL.L (2, 2) [0; 255; 255; 0].

(** A 2 x 2 image, dark on the left and lighter on the right. *)
Definition ramp : PIL.Image := PIL.mkImage PIL.L (2, 2) [0; 64; 0; 64].

Definition everywhere (_ : string) : bool := true.

(** A directory [maps] with two documents, nothing loaded yet. *)
Definition two_maps : World :=
  mkWorld {[ "maps/a.pdf" := SourceDoc [checker]; "maps/b.pdf" := SourceDoc [ramp] ]}
          {[ "maps" := ["a.pdf"; "b.pdf"]; "empty" := [] ]}
          everywhere [] 0.

(** A document whose name has no extension. *)
Definition bare_name : World :=
  mkWorld {[ "maps/topomap" := SourceDoc [checker] ]}
          {[ "maps" := ["topomap"] ]}
          everywhere [] 0.

(** The checkerboard already loaded, at address 0. *)
Definition loaded : World :=
  mkWorld ∅ ∅ everywhere [mkObject checker false] 0.

End Sample.

(** ** Further descriptions *)

Section Bounds.

(** A recorded error lies between 0 and 255. *)
Definition in_range (q : Q) : Prop := (0 <= q /\ q <= 255)%Q.

(** What a computation leaves alone.  [stable n0 outs w w'] says that
    from [w] to [w'] the heap only grew, the image objects below the
    address [n0] are unchanged, the directory listings and the writable
    paths are the same, and every file outside [outs] is as it was;
    [keeps n0 outs m] says so of every run of [m], whatever its
    outcome, from a world whose heap reaches [n0]. *)
Definition stable (n0 : nat) (outs : string -> Prop) (w w' : World) : Prop :=
  (length (heap w) <= length (heap w'))%nat
  /\ (forall a, (a < n0)%nat -> heap w' !! a = heap w !! a)
  /\ listing w' = listing w
  /\ writable w' = writable w
  /\ (forall p, ~ outs p -> fs w' !! p = fs w !! p).

Definition keeps (n0 : nat) (outs : string -> Prop) {A} (m : M A) : Prop :=
  forall w r w', (n0 <= length (heap w))%nat -> m w = (r, w') -> stable n0 outs w w'.

(** Whether a name contains the path separator. *)
Fixpoint has_slash (s : string) : bool :=
  match s with
  | EmptyString => false
  | String c rest => bool_decide (c = "/"%char) || has_slash rest
  end.

End Bounds.

(** Further worlds to run the program in. *)

Module Cases.

(** A directory in which the second entry is no document. *)
Definition broken : World :=
  mkWorld {[ "maps/a.pdf" := SourceDoc [Sample.checker];
             "maps/b.pdf" := SourceDoc [Sample.ramp] ]}
          {[ "maps" := ["a.pdf"; "notes.txt"; "b.pdf"] ]}
          Sample.everywhere [] 0.

(** Two directories with a document of the same name. *)
Definition twins : World :=
  mkWorld {[ "maps/a.pdf" := SourceDoc [Sample.checker];
             "scans/a.pdf" := SourceDoc [Sample.ramp] ]}
          {[ "maps" := ["a.pdf"]; "scans" := ["a.pdf"] ]}
          Sample.everywhere [] 0.

End Cases.

(** * Properties *)

(** ** Running the monad *)

Lemma bind_Ok {A B} (m : M A) (f : A -> M B) w a w' :
  m w = (Ok a, w') -> (m ≫= f) w = f a w'.
Proof. intros E. unfold mbind, M_bind. now rewrite E. Qed.

Lemma bind_Err {A B} (m : M A) (f : A -> M B) w e w' :
  m w = (Err e, w') -> (m ≫= f) w = (Err e, w').
Proof. intros E. unfold mbind, M_bind. now rewrite E. Qed.

Lemma bind_inv_Ok {A B} (m : M A) (f : A -> M B) w b w2 :
  (m ≫= f) w = (Ok b, w2) ->
  exists a w1, m w = (Ok a, w1) /\ f a w1 = (Ok b, w2).
Proof.
  unfold mbind, M_bind. destruct (m w) as [[a|e] w1]; intros E.
  - eauto.
  - discriminate.
Qed.

Lemma alloc_nil w : alloc w [] = w.
Proof. destruct w. unfold alloc, set_heap. simpl. now rewrite app_nil_r. Qed.

Lemma alloc_alloc w xs ys : alloc (alloc w xs) ys = alloc w (xs ++ ys).
Proof. unfold alloc, set_heap. simpl. now rewrite map_app, app_assoc. Qed.

Lemma alloc_lookup_old w imgs (a : nat) o :
  heap w !! a = Some o -> heap (alloc w imgs) !! a = Some o.
Proof. intros E. simpl. now apply lookup_app_l_Some. Qed.

Lemma alloc_lookup_new w imgs (k : nat) im :
  imgs !! k = Some im ->
  heap (alloc w imgs) !! (length (heap w) + k)%nat = Some (mkObject im false).
Proof.
  intros E. simpl. rewrite lookup_app_r by lia.
  replace (length (heap w) + k - length (heap w))%nat with k by lia.
  now rewrite list_lookup_fmap, E.
Qed.

Section Operators.

Context `{Imaging}.

Lemma live_alloc w imgs img im : live w img im -> live (alloc w imgs) img im.
Proof. apply alloc_lookup_old. Qed.

Lemma PIL_load_live w img im : live w img im -> PIL_load img w = (Ok im, w).
Proof. unfold live, PIL_load. now intros ->. Qed.

Lemma Image_size_live w img im : live w img im -> Image_size img w = (Ok (PIL.size im), w).
Proof. unfold live, Image_size. now intros ->. Qed.

Lemma PIL_new_run w im : PIL_new im w = (Ok (length (heap w)), alloc w [im]).
Proof. reflexivity. Qed.

Lemma np_asarray_live w img im :
  live w img im -> np_asarray img w = (Ok (np.asarray_image im), w).
Proof.
  intros Hl. unfold np_asarray.
  now rewrite (bind_Ok _ _ _ _ _ (PIL_load_live _ _ _ Hl)).
Qed.

Lemma live_new w im : live (alloc w [im]) (length (heap w)) im.
Proof.
  unfold live. pose proof (alloc_lookup_new w [im] 0 im eq_refl) as E.
  now rewrite Nat.add_0_r in E.
Qed.

Lemma Image_resize_ok w img im size :
  live w img im -> resize_refusal size = None ->
  Image_resize img size w =
    (Ok (length (heap w)),
     alloc w [PIL.mkImage (PIL.mode im) size (resample im (fst size) (snd size))]).
Proof.
  intros Hl Hs. unfold Image_resize.
  rewrite (bind_Ok _ _ _ _ _ (PIL_load_live _ _ _ Hl)).
  now rewrite Hs.
Qed.

Lemma Image_resize_fail w img im size e :
  live w img im -> resize_refusal size = Some e ->
  Image_resize img size w = (Err e, w).
Proof.
  intros Hl Hs. unfold Image_resize.
  rewrite (bind_Ok _ _ _ _ _ (PIL_load_live _ _ _ Hl)).
  now rewrite Hs.
Qed.

(** A side that is not positive is refused: as too small when it is a
    C int, as too large for a C int otherwise. *)
Lemma resize_refusal_low side :
  side <= 0 ->
  resize_refusal (side, side)
    = Some (if PIL.c_int side then ValueError_resize else OverflowError).
Proof.
  intros Hs. unfold resize_refusal. simpl.
  destruct (PIL.c_int side); simpl; [|reflexivity].
  destruct (side <? 1) eqn:E; [reflexivity|]. apply Z.ltb_ge in E. lia.
Qed.


(** A size that is not refused is positive. *)
Lemma resize_refusal_None size :
  resize_refusal size = None ->
  0 < fst size /\ 0 < snd size /\ fits (fst size) (snd size) = true.
Proof.
  unfold resize_refusal.
  destruct (negb (PIL.c_int (fst size) && PIL.c_int (snd size))); [discriminate|].
  destruct (fst size <? 1) eqn:E1; [discriminate|].
  destruct (snd size <? 1) eqn:E2; [discriminate|].
  apply Z.ltb_ge in E1, E2. simpl.
  destruct (fits (fst size) (snd size)); [|discriminate].
  intros _. repeat split; lia.
Qed.


Lemma topomap_rescale_ok w img im level :
  live w img im -> PIL.wf im -> valid Resize im level ->
  topomap_rescale img level w =
    (Ok (np.asarray_image (rescaled im level)),
     alloc w [shrunk im level; rescaled im level]).
Proof.
  intros Hl Hwf [Ht Hsize]. unfold topomap_rescale.
  replace (55 - level * 5) with (target level) by (unfold target; lia).
  erewrite bind_Ok; [|now apply (Image_resize_ok _ _ im)].
  erewrite bind_Ok; [|apply Image_size_live, live_alloc, Hl].
  erewrite bind_Ok; [|apply Image_resize_ok; [apply live_new|exact Hsize]].
  rewrite alloc_alloc.
  erewrite bind_Ok; [reflexivity|].
  apply np_asarray_live. unfold live.
  replace (length (heap (alloc w [_]))) with (length (heap w) + 1)%nat
    by (simpl; rewrite length_app; reflexivity).
  now apply alloc_lookup_new.
Qed.

(** The first resize refused: nothing was allocated. *)
Lemma topomap_rescale_fail w img im level e :
  live w img im -> resize_refusal (target level, target level) = Some e ->
  topomap_rescale img level w = (Err e, w).
Proof.
  intros Hl Ht. unfold topomap_rescale.
  replace (55 - level * 5) with (target level) by (unfold target; lia).
  erewrite bind_Err; [reflexivity|].
  now apply (Image_resize_fail _ _ im).
Qed.

(** The resize back refused: the small image stays behind. *)
Lemma topomap_rescale_fail_back w img im level e :
  live w img im -> resize_refusal (target level, target level) = None ->
  resize_refusal (PIL.size im) = Some e ->
  topomap_rescale img level w = (Err e, alloc w [shrunk im level]).
Proof.
  intros Hl Ht Hsize. unfold topomap_rescale.
  replace (55 - level * 5) with (target level) by (unfold target; lia).
  erewrite bind_Ok; [|now apply (Image_resize_ok _ _ im)].
  erewrite bind_Ok; [|apply Image_size_live, live_alloc, Hl].
  erewrite bind_Err; [reflexivity|].
  apply (Image_resize_fail _ _ (shrunk im level)); [apply live_new|exact Hsize].
Qed.

Lemma topomap_blur_ok w img im level :
  live w img im -> refuses im (blur_radius level) = None ->
  topomap_blur img level w =
    (Ok (np.asarray_image (blurred im level)), alloc w [blurred im level]).
Proof.
  intros Hl Hr. unfold topomap_blur, Image_filter_GaussianBlur.
  replace (level * 2 + 2) with (blur_radius level) by (unfold blur_radius; lia).
  erewrite bind_Ok;
    [|erewrite bind_Ok; [rewrite Hr; apply PIL_new_run|apply PIL_load_live, Hl]].
  erewrite bind_Ok; [reflexivity|].
  apply np_asarray_live, live_new.
Qed.

Lemma topomap_blur_fail w img im level e :
  live w img im -> refuses im (blur_radius level) = Some e ->
  topomap_blur img level w = (Err e, w).
Proof.
  intros Hl Hr. unfold topomap_blur, Image_filter_GaussianBlur.
  replace (level * 2 + 2) with (blur_radius level) by (unfold blur_radius; lia).
  erewrite bind_Err; [reflexivity|].
  erewrite bind_Ok; [|apply PIL_load_live, Hl].
  now rewrite Hr.
Qed.

End Operators.

(** ** The error of one degraded array *)

Section SquareError.

Lemma sumQ_inject_Z l : (np.sumQ (map inject_Z l) == inject_Z (sumZ l))%Q.
Proof.
  induction l as [|x l IH]; simpl.
  - reflexivity.
  - rewrite IH, inject_Z_plus. reflexivity.
Qed.

Lemma square_wrapped xs ys :
  map (fun v => np.wrap8 (v * v)) (np.zip_with8 Z.sub xs ys) = wrapped_squares xs ys.
Proof.
  revert ys. induction xs as [|x xs IH]; intros [|y ys]; simpl; try reflexivity.
  f_equal; [|apply IH].
  unfold np.wrap8. now rewrite <- Zmult_mod.
Qed.

Lemma length_wrapped_squares xs ys :
  length xs = length ys -> length (wrapped_squares xs ys) = length xs.
Proof. intros E. unfold wrapped_squares. rewrite length_zip_with. lia. Qed.

(** Line 73 on two arrays of one shape. *)
Lemma square_error_mean_wrapped ref deg :
  np.shape ref = np.shape deg ->
  square_error_mean ref deg =
    Ok (np.sumQ (map inject_Z (wrapped_squares (np.data ref) (np.data deg)))
        / np.count (length (wrapped_squares (np.data ref) (np.data deg))))%Q.
Proof.
  intros Hs. unfold square_error_mean, np.subtract.
  destruct (decide (np.shape ref = np.shape deg)) as [_|Hn]; [|contradiction].
  simpl. unfold np.mean, np.square, np.count. simpl.
  now rewrite square_wrapped.
Qed.

Lemma wrapped_squares_nonneg xs ys : Forall (fun v => 0 <= v) (wrapped_squares xs ys).
Proof.
  revert ys. induction xs as [|x xs IH]; intros [|y ys]; simpl; constructor.
  - apply Z.mod_pos_bound. lia.
  - apply IH.
Qed.

Lemma sumZ_nonneg l : Forall (fun v => 0 <= v) l -> 0 <= sumZ l.
Proof. induction 1; simpl; lia. Qed.

Lemma mean_nonneg (s : Z) (n : nat) : 0 <= s -> (0 <= inject_Z s / np.count n)%Q.
Proof.
  intros Hs. unfold Qdiv. apply Qmult_le_0_compat.
  - unfold Qle, inject_Z. simpl. lia.
  - apply Qinv_le_0_compat. unfold np.count, Qle, inject_Z. simpl. lia.
Qed.

Lemma mean_zero (s : Z) (n : nat) :
  (0 < n)%nat -> (inject_Z s / np.count n == 0)%Q <-> s = 0.
Proof.
  intros Hn. unfold np.count. split.
  - intros E. unfold Qdiv in E. apply Qmult_integral in E as [E|E].
    + now apply (inject_Z_injective s 0).
    + exfalso. unfold Qinv, inject_Z, Qeq in E. simpl in E.
      destruct (Z.of_nat n) eqn:En; simpl in E; lia.
  - intros ->. unfold Qdiv. apply Qmult_0_l.
Qed.

(** The value of line 73 is never negative. *)
Lemma square_error_mean_nonneg ref deg q :
  square_error_mean ref deg = Ok q -> (0 <= q)%Q.
Proof.
  unfold square_error_mean, np.subtract.
  destruct (decide (np.shape ref = np.shape deg)) as [_|_]; [|discriminate].
  simpl. intros [= <-]. unfold np.mean, np.square. simpl.
  rewrite square_wrapped, sumQ_inject_Z.
  apply mean_nonneg, sumZ_nonneg, wrapped_squares_nonneg.
Qed.

(** A square vanishes modulo 256 exactly for the multiples of 16. *)
Lemma square_mod_256_table :
  forallb (fun v => Bool.eqb (v * v mod 256 =? 0) (v mod 16 =? 0))
          (map Z.of_nat (seq 0 256)) = true.
Proof. vm_compute. reflexivity. Qed.

Lemma square_mod_256 (x : Z) : (x * x) mod 256 = 0 <-> x mod 16 = 0.
Proof.
  pose proof (Z.mod_pos_bound x 256 eq_refl) as Hb.
  assert (Hv : Bool.eqb ((x mod 256) * (x mod 256) mod 256 =? 0)
                        ((x mod 256) mod 16 =? 0) = true).
  { pose proof square_mod_256_table as T. rewrite forallb_forall in T.
    apply T. apply in_map_iff. exists (Z.to_nat (x mod 256)). split; [lia|].
    apply in_seq. lia. }
  rewrite <- Zmult_mod in Hv.
  rewrite (Z.mod_mod_divide x 256 16) in Hv by (exists 16; reflexivity).
  apply Bool.eqb_prop in Hv.
  rewrite <- Z.eqb_eq, Hv, Z.eqb_eq. reflexivity.
Qed.

(** Two arrays of one shape have error 0 exactly when all their
    samples agree modulo 16. *)
Lemma square_error_mean_zero ref deg q :
  np.shape ref = np.shape deg ->
  length (np.data ref) = length (np.data deg) ->
  (0 < length (np.data ref))%nat ->
  square_error_mean ref deg = Ok q ->
  (q == 0)%Q <->
  Forall2 (fun r d => (r - d) mod 16 = 0) (np.data ref) (np.data deg).
Proof.
  intros Hs Hlen Hpos. rewrite (square_error_mean_wrapped _ _ Hs). intros [= <-].
  rewrite sumQ_inject_Z, mean_zero
    by (rewrite length_wrapped_squares; assumption).
  clear Hs Hpos. revert Hlen.
  generalize (np.data ref) (np.data deg). clear.
  induction l as [|x xs IH]; intros [|y ys] Hlen; try discriminate; simpl.
  - split; [constructor|reflexivity].
  - injection Hlen as Hlen. specialize (IH ys Hlen).
    pose proof (wrapped_squares_nonneg xs ys) as Hnn.
    pose proof (sumZ_nonneg _ Hnn) as Hsum.
    pose proof (Z.mod_pos_bound ((x - y) * (x - y)) 256 eq_refl) as Hm.
    fold (wrapped_squares xs ys). split.
    + intros E. constructor.
      * apply square_mod_256. lia.
      * apply IH. lia.
    + intros E. inversion E as [|? ? ? ? Hxy Hrest]; subst.
      apply square_mod_256 in Hxy. apply IH in Hrest. lia.
Qed.

(** An array against itself has error 0. *)
Lemma square_error_mean_identical ref :
  exists q, square_error_mean ref ref = Ok q /\ (q == 0)%Q.
Proof.
  eexists. split; [apply square_error_mean_wrapped; reflexivity|].
  rewrite sumQ_inject_Z.
  assert (E : sumZ (wrapped_squares (np.data ref) (np.data ref)) = 0).
  { generalize (np.data ref). induction l as [|x l IH]; simpl; [reflexivity|].
    fold (wrapped_squares l l). rewrite IH, Z.sub_diag. reflexivity. }
  rewrite E. unfold Qdiv. apply Qmult_0_l.
Qed.

(** Where no sample moves by 16 or more, line 73 is the mean squared
    error. *)
Lemma square_error_mean_small ref deg q :
  np.shape ref = np.shape deg ->
  length (np.data ref) = length (np.data deg) ->
  Forall2 (fun r d => -16 < r - d < 16) (np.data ref) (np.data deg) ->
  square_error_mean ref deg = Ok q ->
  (q == mean_squared_error ref deg)%Q.
Proof.
  intros Hs Hlen Hsmall. rewrite (square_error_mean_wrapped _ _ Hs). intros [= <-].
  unfold mean_squared_error.
  rewrite sumQ_inject_Z, length_wrapped_squares by assumption.
  replace (wrapped_squares (np.data ref) (np.data deg))
    with (squared_differences (np.data ref) (np.data deg)); [reflexivity|].
  clear Hs Hlen. induction Hsmall as [|r d rs ds Hrd _ IH]; simpl; [reflexivity|].
  fold (squared_differences rs ds) (wrapped_squares rs ds). rewrite IH. f_equal.
  symmetry. apply Z.mod_small.
  generalize dependent (r - d). intros x Hx.
  assert (Hprod : 0 <= (x + 15) * (15 - x)) by (apply Z.mul_nonneg_nonneg; lia).
  replace ((x + 15) * (15 - x)) with (225 - x * x) in Hprod by ring.
  pose proof (Z.square_nonneg x). lia.
Qed.

End SquareError.

(** ** Running [topomap_mse] *)

Lemma insert_middle {A} (l1 l2 : list A) (x y : A) :
  <[length l1 := y]> (l1 ++ x :: l2) = l1 ++ y :: l2.
Proof.
  replace (length l1) with (length l1 + 0)%nat by lia.
  now rewrite insert_app_r.
Qed.

Lemma on_axes_middle done rest p f :
  plt.on_axes (plt.mkSubplots (done ++ p :: rest) false) (length done) f =
    Ok (plt.mkSubplots (done ++ f p :: rest) false).
Proof.
  unfold plt.on_axes. simpl.
  rewrite list_lookup_middle by reflexivity.
  now rewrite insert_middle.
Qed.

Lemma subplots_row n :
  plt.subplots 1 (n + 1) =
    plt.mkSubplots (plt.blank :: replicate n plt.blank) (bool_decide (n = 0)%nat).
Proof.
  unfold plt.subplots. rewrite Nat.mul_1_l, Nat.add_1_r. simpl. f_equal.
  apply bool_decide_ext. lia.
Qed.

Section Pipeline.

Context `{Imaging}.

Lemma show_middle done rest arr :
  show (plt.mkSubplots (done ++ plt.blank :: rest) false) (length done) arr =
    Ok (plt.mkSubplots (done ++ panel_of arr :: rest) false).
Proof.
  unfold show.
  rewrite on_axes_middle. simpl.
  rewrite on_axes_middle. simpl.
  now rewrite on_axes_middle.
Qed.

Lemma convert_from_path_ok w path f :
  fs w !! path = Some f ->
  convert_from_path path w =
    (Ok (seq (length (heap w)) (length (pages_of f))), alloc w (pages_of f)).
Proof. intros E. unfold convert_from_path. rewrite E. now destruct f. Qed.

Lemma select_fn_metric k : select_fn (metric_name k) = Some (operator k).
Proof. now destruct k. Qed.

Lemma select_fn_unrecognized metric : ~ recognized metric -> select_fn metric = None.
Proof.
  unfold recognized, select_fn. intros Hn.
  destruct (decide (metric = "resize_mse")); [tauto|].
  destruct (decide (metric = "blur_mse")); [tauto|reflexivity].
Qed.

Lemma operator_ok k w img im level :
  live w img im -> PIL.wf im -> valid k im level ->
  operator k img level w = (Ok (degraded k im level), alloc w (allocated k im level)).
Proof.
  intros Hl Hwf Hv. destruct k; simpl.
  - now apply topomap_rescale_ok.
  - now apply topomap_blur_ok.
Qed.

Lemma degraded_shape k im level :
  np.shape (degraded k im level) = np.shape (np.asarray_image im).
Proof.
  destruct k; unfold degraded, rescaled, blurred, np.asarray_image; simpl;
    now destruct (PIL.size im).
Qed.

Lemma square_error_mean_degraded k im level :
  square_error_mean (np.asarray_image im) (degraded k im level) = Ok (err_of k im level).
Proof.
  rewrite square_error_mean_wrapped by (symmetry; apply degraded_shape).
  unfold err_of, np.asarray_image. now destruct (PIL.size im).
Qed.

Lemma mse_loop_ok k img im params :
  forall w drawn errs,
    live w img im -> PIL.wf im -> Forall (valid k im) params ->
    (forall d, drawn = Some d -> length d = S (length errs)) ->
    mse_loop (Some (operator k)) img (np.asarray_image im) (length errs) params
      (axes_of drawn (replicate (length params) plt.blank))
      (errs ++ np.zeros (length params)) w =
    (Ok (axes_of ((fun d => d ++ map (fun p => panel_of (degraded k im p)) params) <$> drawn) [],
         errs ++ map (err_of k im) params),
     alloc w (flat_map (allocated k im) params)).
Proof.
  induction params as [|p params IH]; intros w drawn errs Hl Hwf Hv Hd.
  - simpl. rewrite alloc_nil. destruct drawn; simpl; now rewrite ?app_nil_r.
  - inversion Hv as [|? ? Hp Hps]; subst. simpl mse_loop.
    erewrite bind_Ok; [|simpl; now apply (operator_ok _ _ _ im)].
    assert (Hshow :
      (match axes_of drawn (replicate (length (p :: params)) plt.blank) with
       | Some a => a' ← lift (show a (length errs + 1) (degraded k im p)); mret (Some a')
       | None => mret None
       end) (alloc w (allocated k im p)) =
      (Ok (axes_of ((fun d => d ++ [panel_of (degraded k im p)]) <$> drawn)
             (replicate (length params) plt.blank)),
       alloc w (allocated k im p))).
    { destruct drawn as [d|]; simpl; [|reflexivity].
      unfold mbind, M_bind, lift, mret, M_ret.
      rewrite Nat.add_1_r, <- (Hd d eq_refl), show_middle.
      now rewrite <- app_assoc. }
    erewrite bind_Ok; [|exact Hshow].
    erewrite bind_Ok; [|unfold lift; now rewrite square_error_mean_degraded].
    replace (<[length errs := err_of k im p]> (errs ++ np.zeros (length (p :: params))))
      with ((errs ++ [err_of k im p]) ++ np.zeros (length params))
      by (unfold np.zeros; simpl; rewrite insert_middle, <- app_assoc; reflexivity).
    replace (S (length errs)) with (length (errs ++ [err_of k im p]))
      by (rewrite length_app; simpl; lia).
    rewrite IH.
    + rewrite alloc_alloc. destruct drawn; simpl; now rewrite <- !app_assoc.
    + now apply live_alloc.
    + assumption.
    + assumption.
    + intros d' Hd'. destruct drawn as [d|]; simpl in Hd'; [|discriminate].
      injection Hd' as <-. rewrite !length_app. simpl. rewrite (Hd d eq_refl). lia.
Qed.

End Pipeline.

Section PerImage.

Context `{Imaging}.

Lemma split_nonempty sep s : Py.split sep s <> [].
Proof.
  destruct s as [|c s]; simpl; [discriminate|].
  destruct (decide (c = sep)); [discriminate|].
  destruct (Py.split sep s); discriminate.
Qed.

Lemma index_last_split path :
  Py.index_last (Py.split "/" path) = Ok (file_name path).
Proof.
  unfold Py.index_last, file_name.
  destruct (last (Py.split "/" path)) eqn:E; [reflexivity|].
  apply last_None in E. now apply split_nonempty in E.
Qed.

Lemma Image_close_live w img im :
  live w img im -> Image_close img w = (Ok tt, close_image img im w).
Proof. unfold live, Image_close. now intros ->. Qed.

Lemma live_first w im rest : live (alloc w (im :: rest)) (length (heap w)) im.
Proof.
  unfold live. pose proof (alloc_lookup_new w (im :: rest) 0 im eq_refl) as E.
  now rewrite Nat.add_0_r in E.
Qed.

(** The first three lines of [topomap_mse]: the pages are loaded, the
    first one is [img], and [arr_img] is its array. *)
Lemma topomap_mse_load w path im {A} (k : nat -> np.ndarray -> M A) :
  forall f rest,
    fs w !! path = Some f -> pages_of f = im :: rest ->
    (pages ← convert_from_path path;
     img ← lift (Py.index_first pages);
     arr_img ← np_asarray img;
     k img arr_img) w =
    k (length (heap w)) (np.asarray_image im) (alloc w (im :: rest)).
Proof.
  intros f rest Hf Hp.
  erewrite bind_Ok; [|exact (convert_from_path_ok _ _ f Hf)].
  rewrite Hp. simpl length. simpl seq.
  erewrite bind_Ok; [|reflexivity].
  erewrite bind_Ok; [reflexivity|].
  apply np_asarray_live, live_first.
Qed.

(** Without [output_dir], a recognized metric and valid levels give one
    error per level, in order. *)
Lemma topomap_mse_plain k w path im params :
  forall f rest,
    fs w !! path = Some f -> pages_of f = im :: rest ->
    PIL.wf im -> Forall (valid k im) params ->
    topomap_mse path (metric_name k) params None w =
      (Ok (map (err_of k im) params),
       after_plain w im rest (flat_map (allocated k im) params)).
Proof.
  intros f rest Hf Hp Hwf Hv. unfold topomap_mse.
  rewrite (topomap_mse_load w path im _ f rest Hf Hp).
  erewrite bind_Ok; [|reflexivity].
  rewrite select_fn_metric.
  pose proof (mse_loop_ok k (length (heap w)) im params
                (alloc w (im :: rest)) None [] (live_first w im rest) Hwf Hv) as Hloop.
  simpl in Hloop. erewrite bind_Ok; [|apply Hloop; discriminate].
  simpl. rewrite alloc_alloc.
  erewrite bind_Ok; [|reflexivity].
  erewrite bind_Ok; [reflexivity|].
  apply Image_close_live. apply (live_first w im (rest ++ _)).
Qed.

Lemma topomap_mse_saved k w path dir im params :
  forall f rest,
    fs w !! path = Some f -> pages_of f = im :: rest ->
    PIL.wf im -> Forall (valid k im) params -> params <> [] ->
    writable w (output_path dir path (metric_name k)) = true ->
    topomap_mse path (metric_name k) params (Some dir) w =
      (Ok (map (err_of k im) params),
       after_saved w im rest (flat_map (allocated k im) params)
         (output_path dir path (metric_name k)) (comparison k im params)).
Proof.
  intros f rest Hf Hp Hwf Hv Hne Hw. unfold topomap_mse.
  rewrite (topomap_mse_load w path im _ f rest Hf Hp).
  set (w1 := alloc w (im :: rest)).
  set (w2 := set_figures (S (figures w1)) w1).
  assert (Hl2 : live w2 (length (heap w)) im) by apply live_first.
  erewrite bind_Ok with (w' := w2)
    (a := axes_of (Some [panel_of (np.asarray_image im)])
            (replicate (length params) plt.blank)).
  2:{ erewrite bind_Ok; [|reflexivity].
      rewrite subplots_row.
      rewrite bool_decide_eq_false_2 by (destruct params; [contradiction|discriminate]).
      erewrite bind_Ok; [reflexivity|].
      pose proof (show_middle [] (replicate (length params) plt.blank)
                    (np.asarray_image im)) as Hshow.
      simpl in Hshow. unfold lift. now rewrite Hshow. }
  rewrite select_fn_metric.
  pose proof (mse_loop_ok k (length (heap w)) im params w2
                (Some [panel_of (np.asarray_image im)]) [] Hl2 Hwf Hv) as Hloop.
  simpl in Hloop. erewrite bind_Ok; [|apply Hloop; now intros d [= <-]].
  simpl. rewrite index_last_split.
  erewrite bind_Ok.
  2:{ erewrite bind_Ok; [|reflexivity].
      erewrite bind_Ok; [reflexivity|].
      unfold savefig. fold (output_path dir path (metric_name k)).
      simpl. rewrite Hw. reflexivity. }
  erewrite bind_Ok; [reflexivity|].
  erewrite Image_close_live.
  - unfold after_saved, close_image, set_fs, set_heap, set_figures, w2, w1. simpl.
    now rewrite <- app_assoc, map_app, app_nil_r.
  - unfold live. simpl. apply lookup_app_l_Some.
    exact (live_first w im rest).
Qed.

End PerImage.

Lemma checker_wf : PIL.wf Sample.checker.
Proof.
  split; simpl; try lia.
  repeat constructor; unfold PIL.is_byte; lia.
Qed.

Lemma ramp_wf : PIL.wf Sample.ramp.
Proof.
  split; simpl; try lia.
  repeat constructor; unfold PIL.is_byte; lia.
Qed.

(** ** Degradation operators: properties *)

(** The array of a well-formed image is a pixel array. *)
Lemma asarray_wf (im : PIL.Image) : PIL.wf im -> np.wf (np.asarray_image im).
Proof.
  intros [Hw Hh Hlen Hbytes]. unfold np.asarray_image.
  destruct (PIL.size im) as [wd ht] eqn:Hsize. simpl in *.
  split; simpl; [|exact Hbytes].
  rewrite Hlen. unfold np.numel. destruct (PIL.mode im); simpl; lia.
Qed.

Lemma asarray_data (im : PIL.Image) : np.data (np.asarray_image im) = PIL.samples im.
Proof. unfold np.asarray_image. now destruct (PIL.size im). Qed.

(** Two well-formed images of one size and one mode have as many samples. *)
Lemma wf_same_length (im im' : PIL.Image) :
  PIL.wf im -> PIL.wf im' -> PIL.size im' = PIL.size im -> PIL.mode im' = PIL.mode im ->
  length (PIL.samples im') = length (PIL.samples im).
Proof.
  intros Hwf Hwf' Hsize Hmode.
  apply Nat2Z.inj. rewrite (PIL.wf_length _ Hwf), (PIL.wf_length _ Hwf').
  now rewrite Hsize, Hmode.
Qed.

(** The simple back end keeps the promises of Pillow's kernels. *)
Lemma clip_byte v : PIL.is_byte (Simple.clip v).
Proof. unfold PIL.is_byte, Simple.clip. lia. Qed.

Lemma bands_pos m : 0 < PIL.bands m.
Proof. destruct m; simpl; lia. Qed.

Lemma nearest_wf img w h :
  0 < w -> 0 < h ->
  PIL.wf (PIL.mkImage (PIL.mode img) (w, h) (Simple.nearest img w h)).
Proof.
  intros Hw Hh. pose proof (bands_pos (PIL.mode img)) as Hb.
  unfold Simple.nearest. destruct (PIL.size img) as [w0 h0].
  split; simpl; try assumption.
  - rewrite length_map, length_seq. nia.
  - apply Forall_forall. intros v Hv. apply list_elem_of_In, in_map_iff in Hv.
    destruct Hv as (i & <- & _).
    destruct (Simple.coords w (PIL.bands (PIL.mode img)) i) as [[x y] k].
    apply clip_byte.
Qed.

Lemma box_wf img r :
  PIL.wf img ->
  PIL.wf (PIL.mkImage (PIL.mode img) (PIL.size img) (Simple.box img r)).
Proof.
  intros [Hw Hh Hlen Hbytes]. pose proof (bands_pos (PIL.mode img)) as Hb.
  unfold Simple.box. destruct (PIL.size img) as [w0 h0]. simpl in *.
  split; simpl; try assumption.
  - rewrite length_map, length_seq. nia.
  - apply Forall_forall. intros v Hv. apply list_elem_of_In, in_map_iff in Hv.
    destruct Hv as (i & <- & _).
    destruct (Simple.coords w0 (PIL.bands (PIL.mode img)) i) as [[x y] k].
    apply clip_byte.
Qed.

Lemma Simple_lawful : Lawful (H := Simple.imaging).
Proof. split; [exact nearest_wf|exact box_wf]. Qed.

Section OperatorClaims.

Context `{Imaging}.

(** C3. Each operator rescales its level before it calls the transform.
    On a live, well-formed image, [topomap_rescale] resizes to a square of
    side 55 - 5 * level and then back to the size of the input: it returns
    the array of that second image when Pillow refuses neither size,
    raises what the first resize raises with nothing allocated, or what
    the second raises with the small image left behind.  [topomap_blur]
    filters with a Gaussian blur of radius 2 * level + 2: it returns the
    array of the blurred image, or raises what the filter raises. *)
Theorem operators_rescale_level w img im level :
  live w img im -> PIL.wf im ->
  let side := 55 - 5 * level in
  let small := PIL.mkImage (PIL.mode im) (side, side) (resample im side side) in
  let big := PIL.mkImage (PIL.mode im) (PIL.size im)
               (resample small (fst (PIL.size im)) (snd (PIL.size im))) in
  let soft := PIL.mkImage (PIL.mode im) (PIL.size im) (gaussian im (2 * level + 2)) in
  (resize_refusal (side, side) = None -> resize_refusal (PIL.size im) = None ->
   0 < side
   /\ topomap_rescale img level w = (Ok (np.asarray_image big), alloc w [small; big]))
  /\ (forall e, resize_refusal (side, side) = Some e ->
      topomap_rescale img level w = (Err e, w))
  /\ (forall e, resize_refusal (side, side) = None ->
      resize_refusal (PIL.size im) = Some e ->
      topomap_rescale img level w = (Err e, alloc w [small]))
  /\ (refuses im (2 * level + 2) = None ->
      topomap_blur img level w = (Ok (np.asarray_image soft), alloc w [soft]))
  /\ (forall e, refuses im (2 * level + 2) = Some e ->
      topomap_blur img level w = (Err e, w)).
Proof.
  intros Hl Hwf side small big soft.
  split; [|split; [|split; [|split]]].
  - intros Hs Hsize. split.
    + apply resize_refusal_None in Hs. simpl in Hs. lia.
    + now apply topomap_rescale_ok.
  - intros e He. now apply (topomap_rescale_fail w img im).
  - intros e Hs He. now apply (topomap_rescale_fail_back w img im).
  - intros Hr. now apply topomap_blur_ok.
  - intros e He. now apply (topomap_blur_fail w img im).
Qed.


Lemma operator_materializes k w img im level :
  Lawful -> live w img im -> PIL.wf im -> valid k im level ->
  materializes (operator k) w img im level.
Proof.
  intros Hlaw Hl Hwf Hv.
  assert (Hnew : exists a new,
             (a < length (allocated k im level))%nat
             /\ allocated k im level !! a = Some new
             /\ degraded k im level = np.asarray_image new
             /\ PIL.wf new /\ PIL.size new = PIL.size im /\ PIL.mode new = PIL.mode im).
  { destruct k; simpl.
    - exists 1%nat, (rescaled im level).
      assert (Hwfn : PIL.wf (rescaled im level)).
      { destruct Hwf as [Hw Hh _ _]. unfold rescaled.
        rewrite (surjective_pairing (PIL.size im)) at 1.
        exact (resample_wf Hlaw (shrunk im level) _ _ Hw Hh). }
      split; [lia|]. split; [reflexivity|]. split; [reflexivity|].
      split; [exact Hwfn|]. split; reflexivity.
    - exists 0%nat, (blurred im level).
      split; [lia|]. split; [reflexivity|]. split; [reflexivity|].
      split; [now apply (gaussian_wf Hlaw)|]. split; reflexivity. }
  destruct Hnew as (a & new & Ha & Hnew & Harr & Hwfn & Hsize & Hmode).
  exists (degraded k im level), (alloc w (allocated k im level)).
  split; [now apply operator_ok|].
  split; [intros a' o; apply alloc_lookup_old|].
  split; [now apply live_alloc|].
  split; [reflexivity|].
  split; [apply degraded_shape|].
  split; [rewrite Harr; now apply asarray_wf|].
  split; [rewrite Harr, asarray_data; now apply wf_same_length|].
  exists (length (heap w) + a)%nat, new.
  split; [apply lookup_ge_None; lia|].
  split; [now apply alloc_lookup_new|].
  split; [exact Harr|]. split; [exact Hwfn|]. split; assumption.
Qed.

(** C8. On a live, well-formed image and a level the operator accepts
    each operator leaves its input image unchanged and returns a newly
    made pixel array of the shape of the input: the samples of a new,
    well-formed image of the size and the mode of the input, as Pillow's
    kernels deliver it. *)
Theorem operators_preserve_input w img im level :
  Lawful -> live w img im -> PIL.wf im ->
  (valid Resize im level -> materializes topomap_rescale w img im level)
  /\ (valid Blur im level -> materializes topomap_blur w img im level).
Proof.
  intros Hlaw Hl Hwf. split; intros Hv.
  - now apply (operator_materializes Resize).
  - now apply (operator_materializes Blur).
Qed.

End OperatorClaims.

(** The operators run on the loaded checkerboard: at level 0, at level
    11, and with a radius the back end refuses. *)
Lemma operators_rescale_level_witness :
  live Sample.loaded 0 Sample.checker /\
  PIL.wf Sample.checker /\
  np.shape (np.asarray_image Sample.checker) = [2; 2] /\
  (exists arr w', topomap_rescale (H := Simple.imaging) 0 0 Sample.loaded = (Ok arr, w')
                  /\ np.shape arr = [2; 2] /\ length (heap w') = 3%nat) /\
  topomap_rescale (H := Simple.imaging) 0 11 Sample.loaded
    = (Err ValueError_resize, Sample.loaded) /\
  (exists arr w', topomap_blur (H := Simple.imaging) 0 0 Sample.loaded = (Ok arr, w')
                  /\ np.shape arr = [2; 2] /\ length (heap w') = 2%nat) /\
  topomap_blur (H := Simple.imaging) 0 511 Sample.loaded
    = (Err OverflowError, Sample.loaded).
Proof.
  pose proof (operators_rescale_level (H := Simple.imaging) Sample.loaded 0
                Sample.checker 0 eq_refl checker_wf) as (Hr & _ & _ & Hb & _).
  pose proof (operators_rescale_level (H := Simple.imaging) Sample.loaded 0
                Sample.checker 11 eq_refl checker_wf) as (_ & Hr11 & _).
  pose proof (operators_rescale_level (H := Simple.imaging) Sample.loaded 0
                Sample.checker 511 eq_refl checker_wf) as (_ & _ & _ & _ & Hb511).
  split; [reflexivity|]. split; [exact checker_wf|]. split; [reflexivity|].
  split; [|split; [|split]].
  - eexists _, _. split; [apply Hr; reflexivity|]. split; reflexivity.
  - apply Hr11. reflexivity.
  - eexists _, _. split; [apply Hb; reflexivity|]. split; reflexivity.
  - apply Hb511. reflexivity.
Defined.

(** The claim as the specification states it fails at level -429496719:
    the side 55 - 5 * level = 2147483650 is positive, and the first
    resize raises, because the side is no C int. *)
Lemma rescale_level_range_counterexample :
  live Sample.loaded 0 Sample.checker /\
  PIL.wf Sample.checker /\
  0 < 55 - 5 * (-429496719) /\
  topomap_rescale (H := Simple.imaging) 0 (-429496719) Sample.loaded
    = (Err OverflowError, Sample.loaded).
Proof.
  split; [reflexivity|]. split; [exact checker_wf|]. split; [lia|].
  apply (topomap_rescale_fail (H := Simple.imaging) Sample.loaded 0 Sample.checker);
    reflexivity.
Qed.


Lemma operators_preserve_input_witness :
  Lawful (H := Simple.imaging) /\
  live Sample.loaded 0 Sample.checker /\
  PIL.wf Sample.checker /\
  valid (H := Simple.imaging) Resize Sample.checker 3 /\
  valid (H := Simple.imaging) Blur Sample.checker 3 /\
  materializes (topomap_rescale (H := Simple.imaging)) Sample.loaded 0 Sample.checker 3 /\
  materializes (topomap_blur (H := Simple.imaging)) Sample.loaded 0 Sample.checker 3.
Proof.
  pose proof (operators_preserve_input (H := Simple.imaging) Sample.loaded 0
                Sample.checker 3 Simple_lawful eq_refl checker_wf) as [Hr Hb].
  split; [exact Simple_lawful|]. split; [reflexivity|]. split; [exact checker_wf|].
  assert (Hvr : valid (H := Simple.imaging) Resize Sample.checker 3)
    by (split; reflexivity).
  assert (Hvb : valid (H := Simple.imaging) Blur Sample.checker 3) by reflexivity.
  split; [exact Hvr|]. split; [exact Hvb|]. split.
  - exact (Hr Hvr).
  - exact (Hb Hvb).
Defined.

(** ** Per-image error curve: properties *)

Section PerImageClaims.

Context `{Imaging}.

(** With an unrecognized metric the loop fails at its first level: the
    pages are loaded, the figure (if any) has its reference panel, and
    the call of the unset operator raises. *)
Lemma topomap_mse_unset w path metric im p params output_dir :
  forall f rest,
    fs w !! path = Some f -> pages_of f = im :: rest ->
    select_fn metric = None ->
    exists w',
      topomap_mse path metric (p :: params) output_dir w = (Err TypeError_not_callable, w')
      /\ fs w' = fs w
      /\ heap w' = heap (alloc w (im :: rest)).
Proof.
  intros f rest Hf Hp Hsel. unfold topomap_mse.
  rewrite (topomap_mse_load w path im _ f rest Hf Hp), Hsel.
  destruct output_dir as [dir|].
  - eexists. split; [|split].
    + erewrite bind_Ok.
      2:{ erewrite bind_Ok; [|reflexivity].
          rewrite subplots_row, bool_decide_eq_false_2 by discriminate.
          erewrite bind_Ok; [reflexivity|].
          pose proof (show_middle [] (replicate (length (p :: params)) plt.blank)
                        (np.asarray_image im)) as Hshow.
          simpl in Hshow. unfold lift. simpl. now rewrite Hshow. }
      erewrite bind_Err; [reflexivity|].
      simpl. erewrite bind_Err; reflexivity.
    + reflexivity.
    + reflexivity.
  - eexists. split; [|split].
    + erewrite bind_Ok; [|reflexivity].
      erewrite bind_Err; [reflexivity|].
      simpl. erewrite bind_Err; reflexivity.
    + reflexivity.
    + reflexivity.
Qed.

(** Without levels and without [output_dir] the loop body never runs. *)
Lemma topomap_mse_nil w path metric im :
  forall f rest,
    fs w !! path = Some f -> pages_of f = im :: rest ->
    topomap_mse path metric [] None w = (Ok [], after_plain w im rest []).
Proof.
  intros f rest Hf Hp. unfold topomap_mse.
  rewrite (topomap_mse_load w path im _ f rest Hf Hp).
  erewrite bind_Ok; [|reflexivity].
  erewrite bind_Ok; [|reflexivity].
  simpl.
  erewrite bind_Ok; [|reflexivity].
  erewrite bind_Ok; [reflexivity|].
  unfold after_plain. rewrite app_nil_r.
  apply Image_close_live, live_first.
Qed.

(** Without levels but with [output_dir], the figure has one panel
    only: [axes] is a single Axes object and [axes[0]] raises, before
    the metric is looked at. *)
Lemma topomap_mse_nil_saved w path metric dir im :
  forall f rest,
    fs w !! path = Some f -> pages_of f = im :: rest ->
    exists w',
      topomap_mse path metric [] (Some dir) w = (Err TypeError_not_subscriptable, w')
      /\ fs w' = fs w.
Proof.
  intros f rest Hf Hp. unfold topomap_mse.
  rewrite (topomap_mse_load w path im _ f rest Hf Hp).
  eexists. split.
  - erewrite bind_Err; [reflexivity|].
    erewrite bind_Ok; [|reflexivity].
    erewrite bind_Err; [reflexivity|].
    reflexivity.
  - reflexivity.
Qed.

(** C10. For a readable path and no levels, without [output_dir],
    [topomap_mse] returns the empty sequence whatever the metric name
    is, recognized or not.  No operator ran: the only image objects
    added to the world are the pages of the document, the first of them
    closed at the end, and no file changed. *)
Theorem topomap_mse_no_levels w path metric im f rest :
  fs w !! path = Some f -> pages_of f = im :: rest ->
  exists w',
    topomap_mse path metric [] None w = (Ok [], w')
    /\ heap w' = heap w ++ mkObject im true :: map (fun p => mkObject p false) rest
    /\ fs w' = fs w
    /\ figures w' = figures w.
Proof.
  intros Hf Hp. eexists. split; [now apply (topomap_mse_nil w path metric im f rest)|].
  split; [|split; reflexivity].
  unfold after_plain, close_image. simpl. rewrite app_nil_r.
  now rewrite insert_middle.
Qed.

(** C6. A metric name other than resize_mse and blur_mse leaves
    [img_manipulation_fn] unset, and the selection itself does not fail:
    with no levels the call succeeds (and with [output_dir] it fails for
    another reason, not with the error of calling [None]).  With at least
    one level the call fails with the error of calling [None], at the
    first level: only the pages of the document were loaded, no operator
    made an image, the image was not closed and no file was written. *)
Theorem unrecognized_metric_fails_at_first_level w path metric im f rest :
  ~ recognized metric ->
  fs w !! path = Some f -> pages_of f = im :: rest ->
  select_fn metric = None
  /\ is_Ok (fst (topomap_mse path metric [] None w))
  /\ (forall output_dir,
        fst (topomap_mse path metric [] output_dir w) <> Err TypeError_not_callable)
  /\ forall p params output_dir,
       exists w',
         topomap_mse path metric (p :: params) output_dir w
           = (Err TypeError_not_callable, w')
         /\ fs w' = fs w
         /\ heap w' = heap w ++ map (fun p => mkObject p false) (im :: rest).
Proof.
  intros Hn Hf Hp. pose proof (select_fn_unrecognized metric Hn) as Hsel.
  split; [exact Hsel|]. split; [|split].
  - rewrite (topomap_mse_nil w path metric im f rest Hf Hp). eexists. reflexivity.
  - intros [dir|].
    + destruct (topomap_mse_nil_saved w path metric dir im f rest Hf Hp) as (w' & Hrun & _).
      rewrite Hrun. discriminate.
    + rewrite (topomap_mse_nil w path metric im f rest Hf Hp). discriminate.
  - intros p params output_dir.
    exact (topomap_mse_unset w path metric im p params output_dir f rest Hf Hp Hsel).
Qed.

End PerImageClaims.

Lemma topomap_mse_no_levels_witness :
  fs Sample.two_maps !! "maps/a.pdf" = Some (SourceDoc [Sample.checker]) /\
  pages_of (H := Simple.imaging) (SourceDoc [Sample.checker]) = [Sample.checker] /\
  exists w',
    topomap_mse (H := Simple.imaging) "maps/a.pdf" "no_such_metric" [] None Sample.two_maps
      = (Ok [], w')
    /\ heap w' = [mkObject Sample.checker true].
Proof.
  split; [reflexivity|]. split; [reflexivity|].
  destruct (topomap_mse_no_levels (H := Simple.imaging) Sample.two_maps "maps/a.pdf"
              "no_such_metric" Sample.checker (SourceDoc [Sample.checker]) []
              eq_refl eq_refl) as (w' & Hrun & Hheap & _).
  exists w'. split; [exact Hrun|exact Hheap].
Defined.

Lemma unrecognized_metric_fails_at_first_level_witness :
  ~ recognized "no_such_metric" /\
  fs Sample.two_maps !! "maps/a.pdf" = Some (SourceDoc [Sample.checker]) /\
  select_fn (H := Simple.imaging) "no_such_metric" = None /\
  fst (topomap_mse (H := Simple.imaging) "maps/a.pdf" "no_such_metric" [0; 1] None
         Sample.two_maps) = Err TypeError_not_callable.
Proof.
  assert (Hn : ~ recognized "no_such_metric") by (intros [E|E]; discriminate).
  destruct (unrecognized_metric_fails_at_first_level (H := Simple.imaging)
              Sample.two_maps "maps/a.pdf" "no_such_metric" Sample.checker
              (SourceDoc [Sample.checker]) [] Hn eq_refl eq_refl)
    as (Hsel & _ & _ & Hfail).
  split; [exact Hn|]. split; [reflexivity|]. split; [exact Hsel|].
  destruct (Hfail 0 [1] None) as (w' & Hrun & _). now rewrite Hrun.
Defined.

(** ** The comparison document *)

Lemma length_append (a b : string) :
  String.length (a +:+ b) = (String.length a + String.length b)%nat.
Proof. induction a as [|c a IH]; simpl; [reflexivity|now rewrite IH]. Qed.

Lemma substring_append (a b : string) :
  String.substring 0 (String.length a) (a +:+ b) = a.
Proof.
  induction a as [|c a IH]; simpl.
  - now destruct b.
  - now rewrite IH.
Qed.

(** Dropping four characters removes a dot and a three-letter extension. *)
Lemma drop_last4_extension (stem ext : string) :
  String.length ext = 3%nat -> Py.drop_last4 (stem +:+ ("." +:+ ext)) = stem.
Proof.
  intros Hext. unfold Py.drop_last4.
  rewrite !length_append, Hext.
  replace (String.length stem + (String.length "." + 3) - 4)%nat
    with (String.length stem) by (simpl; lia).
  apply substring_append.
Qed.

Section DocumentClaims.

Context `{Imaging}.

(** C9, as the code has it.  With [output_dir] given, a recognized
    metric, valid levels and at least one of them, a run on a readable
    document writes exactly one file and changes no other: the
    comparison document, saved in [output_dir] under the name of the
    input file without its last four characters (its extension, when
    that is a dot and three characters), then an underscore, the metric
    name and [.pdf].  The document has one panel more than there are
    levels: the reference first, then the degraded image of each level in
    order. *)
Theorem comparison_document_saved k w path dir im params f rest :
  fs w !! path = Some f -> pages_of f = im :: rest ->
  PIL.wf im -> Forall (valid k im) params -> params <> [] ->
  let saved_as :=
    Py.os_path_join dir
      (Py.drop_last4 (file_name path) +:+ "_" +:+ metric_name k +:+ ".pdf") in
  writable w saved_as = true ->
  exists errs w' fig,
    topomap_mse path (metric_name k) params (Some dir) w = (Ok errs, w')
    /\ fs w' = <[saved_as := FigureDoc fig]> (fs w)
    /\ length fig = (length params + 1)%nat
    /\ fig !! 0%nat = Some (panel_of (np.asarray_image im))
    /\ (forall i p, params !! i = Some p ->
                    fig !! S i = Some (panel_of (degraded k im p)))
    /\ (forall stem ext,
          file_name path = stem +:+ ("." +:+ ext) -> String.length ext = 3%nat ->
          Py.drop_last4 (file_name path) = stem).
Proof.
  intros Hf Hp Hwf Hv Hne saved_as Hw.
  eexists (map (err_of k im) params), _, (comparison k im params).
  split; [now apply (topomap_mse_saved k w path dir im params f rest)|].
  split; [reflexivity|].
  split; [unfold comparison; simpl; rewrite length_map; lia|].
  split; [reflexivity|].
  split.
  - intros i p Hi. unfold comparison. simpl.
    now rewrite list_lookup_fmap, Hi.
  - intros stem ext -> Hext. now apply drop_last4_extension.
Qed.

End DocumentClaims.

Lemma comparison_document_saved_witness :
  exists errs w' fig,
    topomap_mse (H := Simple.imaging) "maps/a.pdf" "blur_mse" [0; 1] (Some "out")
      Sample.two_maps = (Ok errs, w')
    /\ fs w' = <["out/a_blur_mse.pdf" := FigureDoc fig]> (fs Sample.two_maps)
    /\ length fig = 3%nat.
Proof.
  destruct (comparison_document_saved (H := Simple.imaging) Blur Sample.two_maps
              "maps/a.pdf" "out" Sample.checker [0; 1] (SourceDoc [Sample.checker]) []
              eq_refl eq_refl checker_wf)
    as (errs & w' & fig & Hrun & Hfs & Hlen & _).
  - repeat constructor.
  - discriminate.
  - reflexivity.
  - exists errs, w', fig. split; [exact Hrun|]. split; [exact Hfs|exact Hlen].
Defined.

(** C9 fails as stated.  A document named [topomap], without an
    extension, is saved under [top_blur_mse.pdf], not under its name
    without extension; and with no levels the call fails when it
    subscripts the single Axes object, and writes no document. *)
Lemma comparison_document_counterexample :
  (let r := topomap_mse (H := Simple.imaging) "maps/topomap" "blur_mse" [0]
              (Some "out") Sample.bare_name in
   is_Ok (fst r)
   /\ without_extension "topomap" = "topomap"
   /\ fs (snd r) !! Py.os_path_join "out" (without_extension "topomap" +:+ "_blur_mse.pdf")
        = None
   /\ is_Some (fs (snd r) !! "out/top_blur_mse.pdf"))
  /\
  (let r := topomap_mse (H := Simple.imaging) "maps/a.pdf" "blur_mse" []
              (Some "out") Sample.two_maps in
   ~ is_Ok (fst r)
   /\ fst r = Err TypeError_not_subscriptable
   /\ fs (snd r) = fs Sample.two_maps).
Proof.
  split.
  - split; [vm_compute; eexists; reflexivity|].
    split; [reflexivity|]. split; [vm_compute; reflexivity|].
    vm_compute. eexists. reflexivity.
  - split; [intros [errs Hok]; vm_compute in Hok; discriminate|].
    split; vm_compute; reflexivity.
Qed.

(** ** The recorded error is not the mean squared error *)

(** C1, on a concrete run: a page of 2 x 2 samples 0, 255, 255, 0 is
    blurred to 122, 132, 132, 122 by the simple back end; the squared
    differences have mean 30013/2, and line 73, and so [topomap_mse],
    records 61/2, the mean of the squares modulo 256. *)
Theorem recorded_error_wraps :
  let ref := np.mkArray [2; 2] [0; 255; 255; 0] in
  let deg := np.mkArray [2; 2] [122; 132; 132; 122] in
  np.asarray_image Sample.checker = ref
  /\ degraded (H := Simple.imaging) Blur Sample.checker 0 = deg
  /\ (mean_squared_error ref deg == 30013 # 2)%Q
  /\ (exists q, square_error_mean ref deg = Ok q /\ (q == 61 # 2)%Q)
  /\ (exists q,
        fst (topomap_mse (H := Simple.imaging) "maps/a.pdf" "blur_mse" [0] None
               Sample.two_maps) = Ok [q]
        /\ (q == 61 # 2)%Q).
Proof.
  split; [reflexivity|]. split; [vm_compute; reflexivity|].
  split; [vm_compute; reflexivity|].
  split; eexists; split; vm_compute; reflexivity.
Qed.

(** C4, on concrete arrays: line 73 gives 0 for the samples 16 and 0,
    which differ and whose mean squared error is 256; and a run on a
    page with samples 0 and 80, blurred to 32 and 48, records the
    error 0. *)
Theorem zero_error_for_different_arrays :
  (let ref := np.mkArray [1; 1] [16] in
   let deg := np.mkArray [1; 1] [0] in
   ref <> deg
   /\ (mean_squared_error ref deg == 256)%Q
   /\ exists q, square_error_mean ref deg = Ok q /\ (q == 0)%Q)
  /\
  (let page := PIL.mkImage PIL.L (2, 1) [0; 80] in
   let w := mkWorld {[ "maps/c.pdf" := SourceDoc [page] ]} ∅ Sample.everywhere [] 0 in
   degraded (H := Simple.imaging) Blur page 0 = np.mkArray [1; 2] [32; 48]
   /\ exists q,
        fst (topomap_mse (H := Simple.imaging) "maps/c.pdf" "blur_mse" [0] None w) = Ok [q]
        /\ (q == 0)%Q).
Proof.
  split.
  - split; [discriminate|]. split; [vm_compute; reflexivity|].
    eexists. split; vm_compute; reflexivity.
  - split; [vm_compute; reflexivity|].
    eexists. split; vm_compute; reflexivity.
Qed.

(** ** Aggregation: the averaged curve and its area *)

Section Aggregation.

Lemma add_rows_length xs ys :
  length xs = length ys -> length (np.add_rows xs ys) = length xs.
Proof.
  revert ys. induction xs as [|x xs IH]; intros [|y ys] E; simpl in *; try lia.
  now rewrite IH by lia.
Qed.

Lemma add_rows_nth xs ys j :
  length xs = length ys ->
  (nth j (np.add_rows xs ys) 0 == nth j xs 0 + nth j ys 0)%Q.
Proof.
  revert ys j. induction xs as [|x xs IH]; intros [|y ys] j E; simpl in *; try lia.
  - destruct j; reflexivity.
  - destruct j; [reflexivity|]. apply IH. lia.
Qed.

Lemma foldl_add_rows_length rest :
  forall r, Forall (fun row => length row = length r) rest ->
            length (foldl np.add_rows r rest) = length r.
Proof.
  induction rest as [|x rest IH]; intros r Hlen; simpl; [reflexivity|].
  inversion Hlen as [|? ? Hx Hrest]; subst.
  rewrite IH.
  - now apply add_rows_length.
  - rewrite add_rows_length by easy. exact Hrest.
Qed.

Lemma foldl_add_rows_nth rest j :
  forall r, Forall (fun row => length row = length r) rest ->
            (nth j (foldl np.add_rows r rest) 0 == np.sumQ (column (r :: rest) j))%Q.
Proof.
  induction rest as [|x rest IH]; intros r Hlen; simpl.
  - ring.
  - inversion Hlen as [|? ? Hx Hrest]; subst.
    rewrite IH by (rewrite add_rows_length by easy; exact Hrest).
    simpl. rewrite add_rows_nth by easy. ring.
Qed.

Lemma np_array_rectangular n r rest :
  rectangular n (r :: rest) -> np.array (r :: rest) = Ok (np.FMatrix (r :: rest)).
Proof.
  intros Hr. inversion Hr as [|? ? Hlen Hrest]; subst. unfold np.array.
  replace (forallb _ rest) with true; [reflexivity|].
  symmetry. apply forallb_forall. intros row Hin.
  rewrite Forall_forall in Hrest. apply Nat.eqb_eq, Hrest.
  now apply list_elem_of_In.
Qed.

(** The averaged curve of a table with at least one row. *)
Lemma averaged_curve n r rest :
  rectangular n (r :: rest) ->
  exists quality,
    (group ← np.array (r :: rest); np.to_list (np.mean_axis0 group)) = Ok quality
    /\ length quality = n
    /\ forall j, (j < n)%nat ->
         (nth j quality 0 == column_mean (r :: rest) j)%Q.
Proof.
  intros Hr. rewrite (np_array_rectangular n r rest Hr). simpl.
  inversion Hr as [|? ? Hlen Hrest]; subst.
  assert (Hrows : Forall (fun row => length row = length r) rest) by exact Hrest.
  eexists. split; [reflexivity|]. split.
  - rewrite length_map. now apply foldl_add_rows_length.
  - intros j Hj. unfold column_mean.
    rewrite <- (foldl_add_rows_nth rest j r Hrows).
    set (total := foldl np.add_rows r rest).
    assert (Hlt : (j < length total)%nat)
      by (unfold total; rewrite foldl_add_rows_length; assumption).
    rewrite (nth_indep _ 0%Q (0 / np.count (S (length rest)))%Q)
      by (rewrite length_map; exact Hlt).
    now rewrite (map_nth (fun s => (s / np.count (S (length rest)))%Q)).
Qed.

Lemma diff_arange_nonneg n :
  forall s, existsb (fun d => d <? 0) (np.diff (map Z.of_nat (seq s n))) = false.
Proof.
  induction n as [|n IH]; intros s; [reflexivity|].
  destruct n as [|n]; [reflexivity|].
  specialize (IH (S s)). simpl in *. rewrite IH.
  replace (Z.of_nat (S s) - Z.of_nat s <? 0) with false; [reflexivity|].
  symmetry. apply Z.ltb_ge. lia.
Qed.

Lemma trapz_arange y :
  forall s, (np.trapz y (map Z.of_nat (seq s (length y))) == trapezoid y)%Q.
Proof.
  induction y as [|y0 y IH]; intros s; [reflexivity|].
  destruct y as [|y1 y]; [reflexivity|].
  specialize (IH (S s)). simpl in *. rewrite IH.
  replace (Z.of_nat (S s) - Z.of_nat s) with 1 by lia.
  field.
Qed.

(** [auc] over the indices of a curve with at least two points. *)
Lemma auc_arange y :
  (2 <= length y)%nat ->
  exists a, sklearn.auc (np.arange (length y)) y = Ok a /\ (a == trapezoid y)%Q.
Proof.
  intros Hlen. unfold sklearn.auc, np.arange.
  rewrite length_map, length_seq, Nat.eqb_refl. simpl negb.
  destruct (Nat.ltb_spec (length y) 2) as [Hlt|_]; [lia|].
  rewrite diff_arange_nonneg.
  eexists. split; [reflexivity|].
  rewrite trapz_arange. ring.
Qed.

(** [auc] refuses fewer than two points. *)
Lemma auc_too_short x y : (length x < 2)%nat -> sklearn.auc x y = Err ValueError_auc.
Proof.
  intros Hlen. unfold sklearn.auc.
  destruct (negb _); [reflexivity|].
  destruct (Nat.ltb_spec (length x) 2) as [_|Hge]; [reflexivity|lia].
Qed.


End Aggregation.

(** ** The table of error curves *)

Section Dataset.

Context `{Imaging}.

Lemma mse_loop_length fn img arr params :
  forall i axes errs w axes' errs' w',
    mse_loop fn img arr i params axes errs w = (Ok (axes', errs'), w') ->
    length errs' = length errs.
Proof.
  induction params as [|p params IH]; intros i axes errs w axes' errs' w' Hrun.
  - simpl in Hrun. now injection Hrun as _ <- _.
  - simpl in Hrun.
    apply bind_inv_Ok in Hrun as (arr' & w1 & _ & Hrun).
    apply bind_inv_Ok in Hrun as (axes1 & w2 & _ & Hrun).
    apply bind_inv_Ok in Hrun as (err & w3 & _ & Hrun).
    apply IH in Hrun. now rewrite length_insert in Hrun.
Qed.

(** An error curve has one entry per level. *)
Lemma topomap_mse_length path metric params output_dir w errs w' :
  topomap_mse path metric params output_dir w = (Ok errs, w') ->
  length errs = length params.
Proof.
  unfold topomap_mse. intros Hrun.
  apply bind_inv_Ok in Hrun as (pages & w1 & _ & Hrun).
  apply bind_inv_Ok in Hrun as (img & w2 & _ & Hrun).
  apply bind_inv_Ok in Hrun as (arr_img & w3 & _ & Hrun).
  apply bind_inv_Ok in Hrun as (axes & w4 & _ & Hrun).
  apply bind_inv_Ok in Hrun as ([axes' errs'] & w5 & Hloop & Hrun).
  apply bind_inv_Ok in Hrun as (u & w6 & _ & Hrun).
  apply bind_inv_Ok in Hrun as (u' & w7 & _ & Hrun).
  injection Hrun as <- _.
  apply mse_loop_length in Hloop. rewrite Hloop.
  apply length_replicate.
Qed.

Lemma curves_length image_dir metric params output_dir names w table w' :
  curves image_dir metric params output_dir names w table w' ->
  length table = length names /\ rectangular (length params) table.
Proof.
  induction 1 as [|name names w errs w1 table w2 Hrun _ [IHlen IHrect]].
  - split; [reflexivity|constructor].
  - split; [simpl; now rewrite IHlen|].
    constructor; [|exact IHrect]. now apply topomap_mse_length in Hrun.
Qed.

Lemma collect_curves image_dir metric params output_dir names w table w' :
  curves image_dir metric params output_dir names w table w' ->
  forall group_errors,
    collect image_dir metric params output_dir names group_errors w
      = (Ok (group_errors ++ table), w').
Proof.
  induction 1 as [|name names w errs w1 table w2 Hrun _ IH]; intros group_errors.
  - simpl. now rewrite app_nil_r.
  - simpl. erewrite bind_Ok; [|exact Hrun].
    rewrite IH. now rewrite <- app_assoc.
Qed.


(** Without [output_dir] the curves exist: every entry that is a
    readable document with a well-formed first page has one, for a
    recognized metric and levels the operator accepts on that page. *)
Lemma curves_plain k image_dir params names :
  forall w,
    Forall (fun name => exists im, first_page w (Py.os_path_join image_dir name) im
                                   /\ PIL.wf im /\ Forall (valid k im) params) names ->
    exists table w',
      curves image_dir (metric_name k) params None names w table w'
      /\ fs w' = fs w /\ listing w' = listing w.
Proof.
  induction names as [|name names IH]; intros w Hnames.
  - exists [], w. split; [constructor|split; reflexivity].
  - inversion Hnames as [|? ? (im & (f & rest & Hf & Hp) & Hwf & Hv) Hrest]; subst.
    pose proof (topomap_mse_plain k w _ im params f rest Hf Hp Hwf Hv) as Hrun.
    destruct (IH (after_plain w im rest (flat_map (allocated k im) params)))
      as (table & w' & Hcurves & Hfs & Hls).
    { exact Hrest. }
    exists (map (err_of k im) params :: table), w'.
    split; [econstructor; eassumption|]. split; [exact Hfs|exact Hls].
Qed.

(** With [output_dir] the curves exist as well, when every comparison
    document can be written and none of them replaces a document of the
    directory that is still to be read. *)
Lemma curves_saved k image_dir dir params :
  params <> [] ->
  let source name := Py.os_path_join image_dir name in
  let saved name := output_path dir (source name) (metric_name k) in
  forall names w,
    Forall (fun name => (exists im, first_page w (source name) im /\ PIL.wf im
                                    /\ Forall (valid k im) params)
                        /\ writable w (saved name) = true) names ->
    (forall name name', In name names -> In name' names -> saved name <> source name') ->
    exists table w',
      curves image_dir (metric_name k) params (Some dir) names w table w'
      /\ writable w' = writable w
      /\ forall path, (forall name, In name names -> saved name <> path) ->
                      fs w' !! path = fs w !! path.
Proof.
  intros Hne source saved.
  induction names as [|name names IH]; intros w Hnames Hfresh.
  - exists [], w. split; [constructor|]. split; reflexivity.
  - inversion Hnames as [|? ? [(im & (f & rest & Hf & Hp) & Hwf & Hv) Hw] Hrest]; subst.
    pose proof (topomap_mse_saved k w (source name) dir im params f rest
                  Hf Hp Hwf Hv Hne Hw) as Hrun.
    set (w1 := after_saved w im rest (flat_map (allocated k im) params)
                 (saved name) (comparison k im params)) in *.
    assert (Hfs1 : forall path, saved name <> path -> fs w1 !! path = fs w !! path).
    { intros path Hpath. unfold w1. simpl. now apply lookup_insert_ne. }
    destruct (IH w1) as (table & w' & Hcurves & Hwr & Hfs).
    + rewrite Forall_forall in Hrest. apply Forall_forall. intros name' Hin.
      destruct (Hrest name' Hin) as [(im' & (f' & rest' & Hf' & Hp') & Hwf' & Hv') Hw'].
      split; [|exact Hw'].
      exists im'. split; [|split; [exact Hwf'|exact Hv']].
      exists f', rest'. split; [|exact Hp'].
      rewrite Hfs1; [exact Hf'|].
      apply Hfresh; [now left|right; now apply list_elem_of_In].
    + intros n n' Hn Hn'. apply Hfresh; now right.
    + exists (map (err_of k im) params :: table), w'.
      split; [econstructor; eassumption|]. split; [exact Hwr|].
      intros path Hpath. rewrite Hfs by (intros n Hn; apply Hpath; now right).
      apply Hfs1, Hpath. now left.
Qed.

End Dataset.

(** Two lists of rationals, compared value by value; the integers
    that the indices and the counts inject are computed first. *)
Ltac by_values :=
  repeat match goal with |- Forall2 _ _ _ => constructor end;
  cbn -[Qplus Qmult Qdiv Qeq inject_Z Z.sub];
  change (Z.of_nat 1 - Z.of_nat 0) with 1;
  change (Z.of_nat 2 - Z.of_nat 1) with 1;
  change (np.count 1) with 1%Q;
  change (np.count 2) with 2%Q;
  change (inject_Z 1) with 1%Q;
  field.

(** C5. The table with the curves 2, 4 and 6, 8 aggregates to 4, 6, and
    with the area to 4, 6, 5; the area under a constant curve c, c, c
    over the indices 0, 1, 2 is 2 c, also as the value appended for a
    table whose averaged curve is c, c, c. *)
Theorem aggregate_examples :
  same_values (aggregate [[2; 4]; [6; 8]]%Q false) [4; 6]%Q
  /\ same_values (aggregate [[2; 4]; [6; 8]]%Q true) [4; 6; 5]%Q
  /\ (forall c : Q, exists a,
        sklearn.auc (np.arange 3) [c; c; c] = Ok a /\ (a == 2 * c)%Q)
  /\ (forall c : Q, same_values (aggregate [[c; c; c]] true) [c; c; c; 2 * c]%Q).
Proof.
  split; [|split; [|split]].
  - eexists. split; [reflexivity|]. by_values.
  - eexists. split; [reflexivity|]. by_values.
  - intros c. eexists. split; [reflexivity|].
    cbn -[Qplus Qmult Qdiv Qeq inject_Z Z.sub].
    change (Z.of_nat 1 - Z.of_nat 0) with 1.
    change (Z.of_nat 2 - Z.of_nat 1) with 1.
    change (inject_Z 1) with 1%Q. field.
  - intros c. eexists. split; [reflexivity|]. by_values.
Qed.




(** * Further properties of the four functions *)

(** ** The values of an error curve *)

Section CurveValues.

Context `{Imaging}.

Lemma wrapped_squares_le xs ys :
  sumZ (wrapped_squares xs ys) <= 255 * Z.of_nat (length (wrapped_squares xs ys)).
Proof.
  revert ys. induction xs as [|x xs IH]; intros [|y ys]; simpl; try lia.
  fold (wrapped_squares xs ys). specialize (IH ys).
  pose proof (Z.mod_pos_bound ((x - y) * (x - y)) 256 eq_refl). lia.
Qed.

Lemma mean_le (s : Z) (n : nat) (b : Z) :
  0 <= b -> s <= b * Z.of_nat n -> (inject_Z s / np.count n <= inject_Z b)%Q.
Proof.
  intros Hb Hs. unfold np.count. destruct n as [|n].
  - unfold Qle, Qdiv, Qmult, Qinv, inject_Z. simpl. lia.
  - unfold Qle, Qdiv, Qmult, Qinv, inject_Z.
    rewrite Nat2Z.inj_succ in *. destruct (Z.succ (Z.of_nat n)) eqn:E; try lia.
    simpl. lia.
Qed.

(** Line 73 gives a value between 0 and 255. *)
Lemma square_error_mean_range ref deg q :
  square_error_mean ref deg = Ok q -> in_range q.
Proof.
  intros Hq. split; [exact (square_error_mean_nonneg ref deg q Hq)|].
  revert Hq. unfold square_error_mean, np.subtract.
  destruct (decide (np.shape ref = np.shape deg)) as [_|_]; [|discriminate].
  simpl. intros [= <-]. unfold np.mean, np.square. simpl.
  rewrite square_wrapped, sumQ_inject_Z.
  apply (mean_le _ _ 255); [lia|apply wrapped_squares_le].
Qed.

Lemma mse_loop_Forall (P : Q -> Prop) fn img arr params :
  (forall a b q, square_error_mean a b = Ok q -> P q) ->
  forall i axes errs w axes' errs' w',
    mse_loop fn img arr i params axes errs w = (Ok (axes', errs'), w') ->
    Forall P errs -> Forall P errs'.
Proof.
  intros HP. induction params as [|p params IH];
    intros i axes errs w axes' errs' w' Hrun Herrs.
  - simpl in Hrun. now injection Hrun as _ <- _.
  - simpl in Hrun.
    apply bind_inv_Ok in Hrun as (arr' & w1 & _ & Hrun).
    apply bind_inv_Ok in Hrun as (axes1 & w2 & _ & Hrun).
    apply bind_inv_Ok in Hrun as (err & w3 & Herr & Hrun).
    unfold lift in Herr. injection Herr as Herr _.
    apply (IH _ _ _ _ _ _ _ Hrun).
    apply Forall_insert; [exact Herrs|]. exact (HP _ _ _ Herr).
Qed.

(** The values of an error curve lie between 0 and 255. *)
Lemma topomap_mse_range path metric params output_dir w errs w' :
  topomap_mse path metric params output_dir w = (Ok errs, w') ->
  Forall in_range errs.
Proof.
  unfold topomap_mse. intros Hrun.
  apply bind_inv_Ok in Hrun as (pages & w1 & _ & Hrun).
  apply bind_inv_Ok in Hrun as (img & w2 & _ & Hrun).
  apply bind_inv_Ok in Hrun as (arr_img & w3 & _ & Hrun).
  apply bind_inv_Ok in Hrun as (axes & w4 & _ & Hrun).
  apply bind_inv_Ok in Hrun as ([axes' errs'] & w5 & Hloop & Hrun).
  apply bind_inv_Ok in Hrun as (u & w6 & _ & Hrun).
  apply bind_inv_Ok in Hrun as (u' & w7 & _ & Hrun).
  injection Hrun as <- _.
  apply (mse_loop_Forall in_range _ _ _ _ square_error_mean_range _ _ _ _ _ _ _ Hloop).
  unfold np.zeros. apply Forall_replicate.
  split; unfold Qle; simpl; lia.
Qed.

(** X1. Whatever the metric name and [output_dir] are, a call of
    [topomap_mse] that returns gives exactly one value per level, and
    every value lies between 0 and 255 (the squares are taken modulo 256
    before they are averaged). *)
Theorem error_curve_length_and_range path metric params output_dir w errs w' :
  topomap_mse path metric params output_dir w = (Ok errs, w') ->
  length errs = length params /\ Forall in_range errs.
Proof.
  intros Hrun. split.
  - exact (topomap_mse_length _ _ _ _ _ _ _ Hrun).
  - exact (topomap_mse_range _ _ _ _ _ _ _ Hrun).
Qed.

(** X2. Without [output_dir], for a recognized metric, a readable
    document with a well-formed first page and levels the operator
    accepts, [topomap_mse] returns, for each level in order, the value
    of line 73 on the array of the first page and the array the operator
    makes of it at that level.  No file and no figure is left behind.
    Every page of the document was loaded, though only the first is
    used, and only the first is closed: the other pages and the images
    the operator made stay open. *)
Theorem error_curve_plain k w path im f rest params :
  fs w !! path = Some f -> pages_of f = im :: rest ->
  PIL.wf im -> Forall (valid k im) params ->
  exists errs w',
    topomap_mse path (metric_name k) params None w = (Ok errs, w')
    /\ Forall2 (fun level q =>
                  square_error_mean (np.asarray_image im) (degraded k im level) = Ok q)
               params errs
    /\ fs w' = fs w
    /\ figures w' = figures w
    /\ heap w' = heap w ++ mkObject im true
                         :: map (fun p => mkObject p false)
                              (rest ++ flat_map (allocated k im) params).
Proof.
  intros Hf Hp Hwf Hv.
  exists (map (err_of k im) params),
         (after_plain w im rest (flat_map (allocated k im) params)).
  split; [now apply (topomap_mse_plain k w path im params f rest)|].
  split; [|split; [reflexivity|split; [reflexivity|]]].
  - clear. induction params as [|p params IH]; simpl; constructor.
    + apply square_error_mean_degraded.
    + exact IH.
  - unfold after_plain, close_image. simpl. now rewrite insert_middle.
Qed.

(** X3. Saving the comparison document does not change the values:
    where the run with [output_dir] succeeds (at least one level, a
    writable document), it returns the errors of the run without. *)
Theorem output_dir_keeps_errors k w path dir im f rest params :
  fs w !! path = Some f -> pages_of f = im :: rest ->
  PIL.wf im -> Forall (valid k im) params -> params <> [] ->
  writable w (output_path dir path (metric_name k)) = true ->
  is_Ok (fst (topomap_mse path (metric_name k) params (Some dir) w))
  /\ fst (topomap_mse path (metric_name k) params (Some dir) w)
     = fst (topomap_mse path (metric_name k) params None w).
Proof.
  intros Hf Hp Hwf Hv Hne Hw.
  rewrite (topomap_mse_saved k w path dir im params f rest Hf Hp Hwf Hv Hne Hw).
  rewrite (topomap_mse_plain k w path im params f rest Hf Hp Hwf Hv).
  split; [eexists|]; reflexivity.
Qed.

(** X4. The error of a level depends on the image and on that level
    only: the curve of two lists of levels in a row is the curve of the
    first followed by the curve of the second. *)
Theorem error_curve_app k w path im f rest params1 params2 :
  fs w !! path = Some f -> pages_of f = im :: rest ->
  PIL.wf im -> Forall (valid k im) params1 -> Forall (valid k im) params2 ->
  exists errs1 errs2,
    fst (topomap_mse path (metric_name k) params1 None w) = Ok errs1
    /\ fst (topomap_mse path (metric_name k) params2 None w) = Ok errs2
    /\ fst (topomap_mse path (metric_name k) (params1 ++ params2) None w)
       = Ok (errs1 ++ errs2).
Proof.
  intros Hf Hp Hwf Hv1 Hv2.
  exists (map (err_of k im) params1), (map (err_of k im) params2).
  rewrite !(topomap_mse_plain k w path im _ f rest Hf Hp Hwf)
    by (try apply Forall_app; auto).
  simpl. now rewrite map_app.
Qed.

(** X15. The curve depends on the document only, not on what else the
    world holds: two worlds with the same file at the path give the same
    errors, so a second call returns what the first returned. *)
Theorem error_curve_repeatable k w1 w2 path im f rest params :
  fs w1 !! path = Some f -> fs w2 !! path = Some f -> pages_of f = im :: rest ->
  PIL.wf im -> Forall (valid k im) params ->
  is_Ok (fst (topomap_mse path (metric_name k) params None w1))
  /\ fst (topomap_mse path (metric_name k) params None w1)
     = fst (topomap_mse path (metric_name k) params None w2)
  /\ fst (topomap_mse path (metric_name k) params None
            (snd (topomap_mse path (metric_name k) params None w1)))
     = fst (topomap_mse path (metric_name k) params None w1).
Proof.
  intros Hf1 Hf2 Hp Hwf Hv.
  pose proof (topomap_mse_plain k w1 path im params f rest Hf1 Hp Hwf Hv) as Hrun1.
  pose proof (topomap_mse_plain k w2 path im params f rest Hf2 Hp Hwf Hv) as Hrun2.
  rewrite Hrun1, Hrun2. simpl.
  split; [eexists; reflexivity|]. split; [reflexivity|].
  now rewrite (topomap_mse_plain k
                 (after_plain w1 im rest (flat_map (allocated k im) params))
                 path im params f rest Hf1 Hp Hwf Hv).
Qed.

End CurveValues.

(** ** A level the operator refuses *)

Section InvalidLevel.

Context `{Imaging}.

(** One turn of the loop at a level the operator accepts. *)
Lemma mse_loop_step k img im p params n w drawn errs :
  live w img im -> PIL.wf im -> valid k im p ->
  (forall d, drawn = Some d -> length d = S (length errs)) ->
  mse_loop (Some (operator k)) img (np.asarray_image im) (length errs) (p :: params)
    (axes_of drawn (replicate (S n) plt.blank)) (errs ++ np.zeros (S n)) w =
  mse_loop (Some (operator k)) img (np.asarray_image im)
    (length (errs ++ [err_of k im p])) params
    (axes_of ((fun d => d ++ [panel_of (degraded k im p)]) <$> drawn)
       (replicate n plt.blank))
    ((errs ++ [err_of k im p]) ++ np.zeros n) (alloc w (allocated k im p)).
Proof.
  intros Hl Hwf Hp Hd. simpl mse_loop.
  erewrite bind_Ok; [|simpl; now apply (operator_ok _ _ _ im)].
  erewrite bind_Ok with
    (a := axes_of ((fun d => d ++ [panel_of (degraded k im p)]) <$> drawn)
            (replicate n plt.blank))
    (w' := alloc w (allocated k im p)).
  2:{ destruct drawn as [d|]; simpl; [|reflexivity].
      unfold mbind, M_bind, lift, mret, M_ret.
      rewrite Nat.add_1_r, <- (Hd d eq_refl), show_middle.
      now rewrite <- app_assoc. }
  erewrite bind_Ok; [|unfold lift; now rewrite square_error_mean_degraded].
  replace (<[length errs := err_of k im p]> (errs ++ np.zeros (S n)))
    with ((errs ++ [err_of k im p]) ++ np.zeros n)
    by (unfold np.zeros; simpl; rewrite insert_middle, <- app_assoc; reflexivity).
  replace (S (length errs)) with (length (errs ++ [err_of k im p]))
    by (rewrite length_app; simpl; lia).
  reflexivity.
Qed.

(** The loop stops at the first level whose square the resize refuses:
    the images of the levels before it were made, nothing else happened. *)
Lemma mse_loop_invalid img im good bad rest e :
  forall w drawn errs,
    live w img im -> PIL.wf im ->
    Forall (valid Resize im) good ->
    resize_refusal (target bad, target bad) = Some e ->
    (forall d, drawn = Some d -> length d = S (length errs)) ->
    mse_loop (Some (operator Resize)) img (np.asarray_image im) (length errs)
      (good ++ bad :: rest)
      (axes_of drawn (replicate (length (good ++ bad :: rest)) plt.blank))
      (errs ++ np.zeros (length (good ++ bad :: rest))) w =
    (Err e, alloc w (flat_map (allocated Resize im) good)).
Proof.
  induction good as [|p good IH]; intros w drawn errs Hl Hwf Hgood Hbad Hd.
  - simpl. rewrite alloc_nil.
    erewrite bind_Err; [reflexivity|].
    now apply (topomap_rescale_fail w img im).
  - inversion Hgood as [|? ? Hp Hrest]; subst.
    change (length ((p :: good) ++ bad :: rest))
      with (S (length (good ++ bad :: rest))).
    change ((p :: good) ++ bad :: rest) with (p :: (good ++ bad :: rest)).
    rewrite (mse_loop_step Resize img im p _ _ w drawn errs Hl Hwf Hp Hd).
    rewrite IH.
    + now rewrite alloc_alloc.
    + now apply live_alloc.
    + assumption.
    + assumption.
    + assumption.
    + intros d' Hd'. destruct drawn as [d|]; simpl in Hd'; [|discriminate].
      injection Hd' as <-. rewrite !length_app. simpl. rewrite (Hd d eq_refl). lia.
Qed.

(** X5. Under resize_mse a level of 11 or more among the levels makes
    the whole call fail with the error of the resize (Pillow's ValueError
    when the side 55 - 5 * level is a C int, OverflowError below - 2^31),
    also when the levels before it were accepted: their errors are lost.
    No document is written, the loaded page is not closed, and with
    [output_dir] the figure stays open in pyplot. *)
Theorem invalid_level_aborts w path im f pages good bad rest output_dir :
  fs w !! path = Some f -> pages_of f = im :: pages -> PIL.wf im ->
  Forall (valid Resize im) good -> 11 <= bad ->
  exists w',
    topomap_mse path "resize_mse" (good ++ bad :: rest) output_dir w
      = (Err (if PIL.c_int (55 - 5 * bad) then ValueError_resize else OverflowError), w')
    /\ fs w' = fs w
    /\ heap w' !! length (heap w) = Some (mkObject im false)
    /\ figures w' = (figures w + match output_dir with Some _ => 1 | None => 0 end)%nat.
Proof.
  intros Hf Hp Hwf Hv Hbad.
  assert (Ht : resize_refusal (target bad, target bad)
               = Some (if PIL.c_int (55 - 5 * bad) then ValueError_resize
                       else OverflowError)).
  { apply resize_refusal_low. unfold target. lia. }
  unfold topomap_mse.
  rewrite (topomap_mse_load w path im _ f pages Hf Hp).
  change (select_fn "resize_mse") with (Some (operator Resize)).
  destruct output_dir as [dir|].
  - eexists. split; [|split; [|split]].
    + erewrite bind_Ok with
        (a := axes_of (Some [panel_of (np.asarray_image im)])
                (replicate (length (good ++ bad :: rest)) plt.blank)).
      2:{ erewrite bind_Ok; [|reflexivity].
          rewrite subplots_row.
          rewrite bool_decide_eq_false_2 by (destruct good; discriminate).
          erewrite bind_Ok; [reflexivity|].
          pose proof (show_middle [] (replicate (length (good ++ bad :: rest)) plt.blank)
                        (np.asarray_image im)) as Hshow.
          simpl in Hshow. unfold lift. now rewrite Hshow. }
      erewrite bind_Err; [reflexivity|].
      apply (mse_loop_invalid _ im good bad rest _ _
               (Some [panel_of (np.asarray_image im)]) []); try assumption.
      * apply (live_first w im pages).
      * now intros d [= <-].
    + reflexivity.
    + simpl. apply lookup_app_l_Some. apply (live_first w im pages).
    + simpl. lia.
  - eexists. split; [|split; [|split]].
    + erewrite bind_Ok; [|reflexivity].
      erewrite bind_Err; [reflexivity|].
      apply (mse_loop_invalid _ im good bad rest _ _ None []); try assumption.
      * apply (live_first w im pages).
      * discriminate.
    + reflexivity.
    + simpl. apply lookup_app_l_Some. apply (live_first w im pages).
    + simpl. lia.
Qed.

End InvalidLevel.

(** ** The averaged curve: order, identical curves, range *)

Section AveragedCurve.

(** Lines 105 to 112 on a table with at least one row, in parts: the
    averaged curve, and behind it the area when it is asked for. *)
Lemma aggregate_parts n r rest return_auc :
  rectangular n (r :: rest) ->
  (return_auc = true -> (2 <= n)%nat) ->
  exists curve area,
    aggregate (r :: rest) return_auc
      = Ok (curve ++ if return_auc then [area] else [])
    /\ length curve = n
    /\ (forall j, (j < n)%nat -> (nth j curve 0 == column_mean (r :: rest) j)%Q)
    /\ (area == trapezoid curve)%Q.
Proof.
  intros Hr Hauc.
  destruct (averaged_curve n r rest Hr) as (curve & Hcurve & Hlen & Hmean).
  unfold aggregate.
  assert (Hbind : forall k : list Q -> Res (list Q),
            (group ← np.array (r :: rest);
             quality_values ← np.to_list (np.mean_axis0 group);
             k quality_values) = k curve).
  { intros k. revert Hcurve. destruct (np.array (r :: rest)) as [g|e]; simpl.
    - now intros ->.
    - discriminate. }
  rewrite Hbind. destruct return_auc.
  - destruct (auc_arange curve) as (a & Ha & Hval); [rewrite Hlen; now apply Hauc|].
    rewrite Ha. simpl. exists curve, a. repeat split; assumption.
  - exists curve, (trapezoid curve). simpl. rewrite app_nil_r.
    repeat split; try assumption; try reflexivity.
Qed.






Lemma count_S n : (np.count (S n) == np.count n + 1)%Q.
Proof.
  unfold np.count. rewrite Nat2Z.inj_succ. unfold Z.succ.
  rewrite inject_Z_plus. reflexivity.
Qed.

Lemma count_nonneg n : (0 <= np.count n)%Q.
Proof. unfold np.count, Qle. simpl. lia. Qed.




Lemma in_range_Qeq (p q : Q) : (p == q)%Q -> in_range q -> in_range p.
Proof. unfold in_range. intros ->. tauto. Qed.

Lemma sumQ_range (l : list Q) :
  Forall in_range l -> (0 <= np.sumQ l /\ np.sumQ l <= 255 * np.count (length l))%Q.
Proof.
  induction 1 as [|x l [Hx0 Hx1] _ [IH0 IH1]]; simpl.
  - split; unfold Qle; simpl; lia.
  - rewrite count_S. lra.
Qed.

Lemma mean_range (l : list Q) :
  l <> [] -> Forall in_range l -> in_range (np.sumQ l / np.count (length l)).
Proof.
  intros Hne Hl. destruct (sumQ_range l Hl) as [H0 H1].
  assert (Hpos : (0 < np.count (length l))%Q).
  { destruct l as [|x l]; [contradiction|]. simpl length.
    rewrite count_S. pose proof (count_nonneg (length l)). lra. }
  split.
  - apply Qle_shift_div_l; [exact Hpos|]. lra.
  - apply Qle_shift_div_r; [exact Hpos|]. lra.
Qed.

Lemma trapezoid_range (y : list Q) :
  Forall in_range y ->
  (0 <= trapezoid y /\ trapezoid y <= 255 * np.count (Nat.pred (length y)))%Q.
Proof.
  induction 1 as [|y0 y [H0 H1] Hy IH].
  - split; unfold Qle; simpl; lia.
  - destruct Hy as [|y1 y [H2 H3] Hy].
    + split; unfold Qle; simpl; lia.
    + change (trapezoid (y0 :: y1 :: y))
        with ((y0 + y1) / 2 + trapezoid (y1 :: y))%Q.
      simpl length in *. simpl Nat.pred in *. rewrite count_S.
      destruct IH as [IH0 IH1].
      assert (Hhalf : ((y0 + y1) / 2 == (1 # 2) * (y0 + y1))%Q) by field.
      rewrite Hhalf. lra.
Qed.

Lemma column_mean_range (table : list (list Q)) j :
  table <> [] -> Forall (Forall in_range) table -> in_range (column_mean table j).
Proof.
  intros Hne Hrange. unfold column_mean.
  replace (length table) with (length (column table j))
    by (unfold column; apply length_map).
  apply mean_range; [destruct table; [contradiction|discriminate]|].
  unfold column. apply Forall_map. eapply Forall_impl; [exact Hrange|].
  intros row Hrow. simpl.
  destruct (nth_in_or_default j row 0%Q) as [Hin|Hd].
  - rewrite Forall_forall in Hrow. apply Hrow. now apply list_elem_of_In.
  - rewrite Hd. split; unfold Qle; simpl; lia.
Qed.

(** The averaged curve and the area of a table of values in range. *)
Lemma aggregate_range n r rest return_auc :
  rectangular n (r :: rest) -> Forall (Forall in_range) (r :: rest) ->
  (return_auc = true -> (2 <= n)%nat) ->
  exists quality,
    aggregate (r :: rest) return_auc = Ok quality
    /\ length quality = (n + if return_auc then 1 else 0)%nat
    /\ Forall in_range (take n quality)
    /\ (return_auc = true ->
        (0 <= nth n quality 0 /\ nth n quality 0 <= 255 * np.count (n - 1))%Q).
Proof.
  intros Hr Hrange Hauc.
  destruct (aggregate_parts n r rest return_auc Hr Hauc)
    as (curve & area & Hagg & Hlen & Hmean & Harea).
  assert (Hcurve : Forall in_range curve).
  { apply Forall_lookup. intros j q Hj.
    assert (Hlt : (j < n)%nat) by (rewrite <- Hlen; now apply lookup_lt_Some in Hj).
    assert (Hq : q = nth j curve 0%Q) by (now rewrite (nth_lookup_Some _ _ _ _ Hj)).
    rewrite Hq. apply (in_range_Qeq _ _ (Hmean j Hlt)).
    now apply column_mean_range. }
  exists (curve ++ if return_auc then [area] else []).
  split; [exact Hagg|]. rewrite <- Hlen. split; [|split].
  - rewrite length_app. now destruct return_auc.
  - now rewrite take_app_length.
  - intros ->. rewrite app_nth2 by lia. rewrite Nat.sub_diag. simpl.
    destruct (trapezoid_range curve Hcurve) as [H0 H1].
    replace (length curve - 1)%nat with (Nat.pred (length curve)) by lia.
    rewrite Harea. split; assumption.
Qed.

(** X8. Averaging keeps the range of the errors: for a table of curves
    with values between 0 and 255, every value of the averaged curve
    lies between 0 and 255, and the area appended with [return_auc] lies
    between 0 and 255 times the number of levels less one. *)
Theorem quality_range n r rest return_auc :
  rectangular n (r :: rest) -> Forall (Forall in_range) (r :: rest) ->
  (return_auc = true -> (2 <= n)%nat) ->
  exists quality,
    aggregate (r :: rest) return_auc = Ok quality
    /\ Forall in_range (take n quality)
    /\ (return_auc = true ->
        (0 <= nth n quality 0 /\ nth n quality 0 <= 255 * np.count (n - 1))%Q).
Proof.
  intros Hr Hrange Hauc.
  destruct (aggregate_range n r rest return_auc Hr Hrange Hauc)
    as (quality & Hagg & _ & Hcurve & Harea).
  exists quality. split; [exact Hagg|]. split; assumption.
Qed.

End AveragedCurve.

(** ** The whole directory *)

Section WholeDirectory.

Context `{Imaging}.

Lemma curves_range image_dir metric params output_dir names w table w' :
  curves image_dir metric params output_dir names w table w' ->
  Forall (Forall in_range) table.
Proof.
  induction 1 as [|name names w errs w1 table w2 Hrun _ IH]; constructor.
  - exact (topomap_mse_range _ _ _ _ _ _ _ Hrun).
  - exact IH.
Qed.

(** X9. Without [output_dir], for a directory with at least one entry
    whose entries are all readable documents with a well-formed first
    page, a recognized metric and levels the operator accepts on each of
    these pages (at least two of them with [return_auc]),
    [compute_topomap_image_quality]
    returns: one value between 0 and 255 per level, then the area if
    asked for, and it leaves every file as it was. *)
Theorem dataset_quality_plain k image_dir params return_auc names w :
  listing w !! image_dir = Some names -> names <> [] ->
  Forall (fun name => exists im, first_page w (Py.os_path_join image_dir name) im
                                 /\ PIL.wf im /\ Forall (valid k im) params) names ->
  (return_auc = true -> (2 <= length params)%nat) ->
  exists quality w',
    compute_topomap_image_quality image_dir (metric_name k) params return_auc None w
      = (Ok quality, w')
    /\ length quality = (length params + if return_auc then 1 else 0)%nat
    /\ Forall in_range (take (length params) quality)
    /\ fs w' = fs w.
Proof.
  intros Hdir Hne Hnames Hauc.
  destruct (curves_plain k image_dir params names w Hnames)
    as (table & w' & Hcurves & Hfs & _).
  destruct (curves_length _ _ _ _ _ _ _ _ Hcurves) as [Hlen Hrect].
  pose proof (curves_range _ _ _ _ _ _ _ _ Hcurves) as Hrange.
  destruct table as [|r rest]; [destruct names; [contradiction|discriminate]|].
  destruct (aggregate_range (length params) r rest return_auc Hrect Hrange Hauc)
    as (quality & Hagg & Hqlen & Hcurve & _).
  exists quality, w'. split; [|split; [exact Hqlen|split; [exact Hcurve|exact Hfs]]].
  unfold compute_topomap_image_quality.
  erewrite bind_Ok; [|unfold os_listdir; now rewrite Hdir].
  erewrite bind_Ok; [|exact (collect_curves _ _ _ _ _ _ _ _ Hcurves [])].
  unfold lift. simpl. now rewrite Hagg.
Qed.

Lemma collect_abort image_dir metric params output_dir names1 w table w1 :
  curves image_dir metric params output_dir names1 w table w1 ->
  forall name names2 e w2 group_errors,
    topomap_mse (Py.os_path_join image_dir name) metric params output_dir w1
      = (Err e, w2) ->
    collect image_dir metric params output_dir (names1 ++ name :: names2)
      group_errors w = (Err e, w2).
Proof.
  induction 1 as [|n names w errs w1 table w2 Hrun _ IH];
    intros name names2 e w3 group_errors Hfail.
  - simpl. erewrite bind_Err; [reflexivity|exact Hfail].
  - simpl. erewrite bind_Ok; [|exact Hrun]. now apply IH.
Qed.

(** X10. One entry that fails stops the whole call: if the entries
    before it give their curves and the run on it raises, then
    [compute_topomap_image_quality] raises that error.  There is no
    partial result, the entries after it are not read, and the world is
    the one the failed run left: documents saved for the entries before
    it stay. *)
Theorem dataset_aborts_at_first_failure image_dir metric params return_auc
    output_dir names1 name names2 w table w1 e w2 :
  listing w !! image_dir = Some (names1 ++ name :: names2) ->
  curves image_dir metric params output_dir names1 w table w1 ->
  topomap_mse (Py.os_path_join image_dir name) metric params output_dir w1
    = (Err e, w2) ->
  compute_topomap_image_quality image_dir metric params return_auc output_dir w
    = (Err e, w2).
Proof.
  intros Hdir Hcurves Hfail. unfold compute_topomap_image_quality.
  erewrite bind_Ok; [|unfold os_listdir; now rewrite Hdir].
  erewrite bind_Err; [reflexivity|].
  exact (collect_abort _ _ _ _ _ _ _ _ Hcurves name names2 e w2 [] Hfail).
Qed.

(** A path that is no document fails at once, and changes nothing. *)
Lemma topomap_mse_unreadable path metric params output_dir w :
  fs w !! path = None ->
  topomap_mse path metric params output_dir w = (Err PDFPageCountError, w).
Proof.
  intros Hnone. unfold topomap_mse.
  erewrite bind_Err; [reflexivity|].
  unfold convert_from_path. now rewrite Hnone.
Qed.

End WholeDirectory.

(** ** What a call leaves alone *)

Section Frame.

Context `{Imaging}.

Lemma stable_refl n0 outs w : stable n0 outs w w.
Proof. repeat split; auto. Qed.

Lemma stable_trans n0 outs w1 w2 w3 :
  stable n0 outs w1 w2 -> stable n0 outs w2 w3 -> stable n0 outs w1 w3.
Proof.
  intros (Hl1 & Hh1 & Hd1 & Hw1 & Hf1) (Hl2 & Hh2 & Hd2 & Hw2 & Hf2).
  split; [lia|]. split; [|split; [congruence|split; [congruence|]]].
  - intros a Ha. now rewrite Hh2, Hh1.
  - intros p Hp. now rewrite Hf2, Hf1.
Qed.

Lemma stable_weaken n0 (outs outs' : string -> Prop) w w' :
  (forall p, outs p -> outs' p) -> stable n0 outs w w' -> stable n0 outs' w w'.
Proof.
  intros Hsub (Hl & Hh & Hd & Hw & Hf). repeat split; auto.
Qed.

Lemma keeps_pure n0 outs {A} (r : Res A) : keeps n0 outs (lift r).
Proof. intros w r' w' _ [= _ <-]. apply stable_refl. Qed.

Lemma keeps_bind_dep n0 outs {A B} (m : M A) (f : A -> M B) :
  keeps n0 outs m ->
  (forall w a w1, (n0 <= length (heap w))%nat -> m w = (Ok a, w1) ->
                  keeps n0 outs (f a)) ->
  keeps n0 outs (m ≫= f).
Proof.
  intros Hm Hf w r w' Hn Hrun. unfold mbind, M_bind in Hrun.
  destruct (m w) as [[a|e] w1] eqn:Em.
  - pose proof (Hm w _ w1 Hn Em) as Hs.
    apply (stable_trans _ _ _ w1); [exact Hs|].
    apply (Hf w a w1 Hn Em w1 r w'); [|exact Hrun].
    destruct Hs as (Hl & _). lia.
  - injection Hrun as _ <-. exact (Hm w _ w1 Hn Em).
Qed.

Lemma keeps_bind n0 outs {A B} (m : M A) (f : A -> M B) :
  keeps n0 outs m -> (forall a, keeps n0 outs (f a)) -> keeps n0 outs (m ≫= f).
Proof. intros Hm Hf. apply keeps_bind_dep; auto. Qed.

Lemma keeps_alloc n0 outs w imgs :
  (n0 <= length (heap w))%nat -> stable n0 outs w (alloc w imgs).
Proof.
  intros Hn. split; [simpl; rewrite length_app; lia|].
  split; [|repeat split; auto].
  intros a Ha. simpl. apply lookup_app_l. lia.
Qed.

Lemma keeps_PIL_new n0 outs im : keeps n0 outs (PIL_new im).
Proof. intros w r w' Hn [= _ <-]. now apply (keeps_alloc n0 outs w [im]). Qed.

Lemma keeps_PIL_load n0 outs img : keeps n0 outs (PIL_load img).
Proof.
  intros w r w' _. unfold PIL_load.
  destruct (heap w !! img) as [o|]; [destruct (closed o)|];
    intros [= _ <-]; apply stable_refl.
Qed.

Lemma keeps_Image_size n0 outs img : keeps n0 outs (Image_size img).
Proof.
  intros w r w' _. unfold Image_size.
  destruct (heap w !! img) as [o|]; intros [= _ <-]; apply stable_refl.
Qed.

Lemma keeps_Image_resize n0 outs img size : keeps n0 outs (Image_resize img size).
Proof.
  unfold Image_resize. apply keeps_bind; [apply keeps_PIL_load|]. intros im.
  destruct (resize_refusal size) as [e|].
  - apply (keeps_pure n0 outs (Err e)).
  - apply keeps_PIL_new.
Qed.

Lemma keeps_np_asarray n0 outs img : keeps n0 outs (np_asarray img).
Proof.
  unfold np_asarray. apply keeps_bind; [apply keeps_PIL_load|]. intros im.
  apply (keeps_pure n0 outs (Ok _)).
Qed.

Lemma keeps_topomap_rescale n0 outs img level : keeps n0 outs (topomap_rescale img level).
Proof.
  unfold topomap_rescale.
  apply keeps_bind; [apply keeps_Image_resize|]. intros res_img.
  apply keeps_bind; [apply keeps_Image_size|]. intros size.
  apply keeps_bind; [apply keeps_Image_resize|]. intros res_img_big.
  apply keeps_bind; [apply keeps_np_asarray|]. intros arr.
  apply (keeps_pure n0 outs (Ok _)).
Qed.

Lemma keeps_topomap_blur n0 outs img level : keeps n0 outs (topomap_blur img level).
Proof.
  unfold topomap_blur, Image_filter_GaussianBlur.
  apply keeps_bind.
  - apply keeps_bind; [apply keeps_PIL_load|]. intros im.
    destruct (refuses im (level * 2 + 2)) as [e|].
    + apply (keeps_pure n0 outs (Err e)).
    + apply keeps_PIL_new.
  - intros blur_img.
    apply keeps_bind; [apply keeps_np_asarray|]. intros arr.
    apply (keeps_pure n0 outs (Ok _)).
Qed.

Lemma keeps_call_fn n0 outs metric img param :
  keeps n0 outs (call_fn (select_fn metric) img param).
Proof.
  unfold select_fn.
  destruct (decide (metric = "resize_mse")); [apply keeps_topomap_rescale|].
  destruct (decide (metric = "blur_mse")); [apply keeps_topomap_blur|].
  apply (keeps_pure n0 outs (Err TypeError_not_callable)).
Qed.

Lemma keeps_mse_loop n0 outs metric img arr params :
  forall i axes errs,
    keeps n0 outs (mse_loop (select_fn metric) img arr i params axes errs).
Proof.
  induction params as [|p params IH]; intros i axes errs.
  - apply (keeps_pure n0 outs (Ok _)).
  - simpl. apply keeps_bind; [apply keeps_call_fn|]. intros arr'.
    apply keeps_bind.
    + destruct axes as [a|].
      * apply keeps_bind; [apply keeps_pure|]. intros a'.
        apply (keeps_pure n0 outs (Ok _)).
      * apply (keeps_pure n0 outs (Ok _)).
    + intros axes'. apply keeps_bind; [apply keeps_pure|]. intros err. apply IH.
Qed.

Lemma keeps_convert_from_path n0 outs path : keeps n0 outs (convert_from_path path).
Proof.
  intros w r w' Hn. unfold convert_from_path.
  destruct (fs w !! path) as [f|]; intros [= _ <-]; [|apply stable_refl].
  now apply (keeps_alloc n0 outs w).
Qed.

Lemma keeps_Image_close n0 outs img :
  (n0 <= img)%nat -> keeps n0 outs (Image_close img).
Proof.
  intros Himg w r w' _. unfold Image_close.
  destruct (heap w !! img) as [o|]; intros [= _ <-]; [|apply stable_refl].
  split; [simpl; rewrite length_insert; lia|].
  split; [|repeat split; auto].
  intros a Ha. simpl. apply list_lookup_insert_ne. lia.
Qed.

Lemma keeps_plt_subplots n0 outs nrow ncol : keeps n0 outs (plt_subplots nrow ncol).
Proof. intros w r w' _ [= _ <-]. repeat split; auto. Qed.

Lemma keeps_plt_close n0 outs : keeps n0 outs plt_close.
Proof. intros w r w' _ [= _ <-]. repeat split; auto. Qed.

Lemma keeps_savefig n0 (outs : string -> Prop) path fig :
  outs path -> keeps n0 outs (savefig path fig).
Proof.
  intros Hout w r w' _. unfold savefig.
  destruct (writable w path); intros [= _ <-]; [|apply stable_refl].
  split; [reflexivity|]. split; [reflexivity|].
  split; [reflexivity|]. split; [reflexivity|].
  intros p Hp. simpl. apply lookup_insert_ne. intros ->. contradiction.
Qed.

(** The paths a run of [topomap_mse] may write. *)
Lemma keeps_topomap_mse n0 path metric params output_dir :
  keeps n0 (fun p => exists dir, output_dir = Some dir
                                 /\ p = output_path dir path metric)
    (topomap_mse path metric params output_dir).
Proof.
  set (outs := fun p => exists dir, output_dir = Some dir
                                    /\ p = output_path dir path metric).
  unfold topomap_mse.
  apply keeps_bind_dep; [apply keeps_convert_from_path|].
  intros w0 pages w1 Hn0 Hpages.
  assert (Hfrom : Forall (fun a => n0 <= a)%nat pages).
  { unfold convert_from_path in Hpages.
    destruct (fs w0 !! path); [|discriminate].
    injection Hpages as <- _. apply Forall_forall. intros a Ha.
    apply list_elem_of_In, in_seq in Ha. lia. }
  apply keeps_bind_dep; [apply keeps_pure|].
  intros w2 img w3 _ Himg.
  assert (Hle : (n0 <= img)%nat).
  { unfold lift in Himg. destruct pages as [|a pages]; [discriminate|].
    injection Himg as <- _. now inversion Hfrom. }
  apply keeps_bind; [apply keeps_np_asarray|]. intros arr_img.
  apply keeps_bind.
  { destruct output_dir as [dir|].
    - apply keeps_bind; [apply keeps_plt_subplots|]. intros axes.
      apply keeps_bind; [apply keeps_pure|]. intros axes'.
      apply (keeps_pure n0 outs (Ok _)).
    - apply (keeps_pure n0 outs (Ok _)). }
  intros axes. apply keeps_bind; [apply keeps_mse_loop|].
  intros [axes' errs]. apply keeps_bind.
  { destruct output_dir as [dir|]; [destruct axes' as [fig|]|].
    - apply keeps_bind_dep; [apply keeps_pure|].
      intros w4 name w5 _ Hname. unfold lift in Hname.
      rewrite index_last_split in Hname. injection Hname as <- _.
      apply keeps_bind; [|intros; apply keeps_plt_close].
      apply keeps_savefig. exists dir. split; reflexivity.
    - apply (keeps_pure n0 outs (Ok tt)).
    - apply (keeps_pure n0 outs (Ok tt)). }
  intros _. apply keeps_bind; [now apply keeps_Image_close|].
  intros _. apply (keeps_pure n0 outs (Ok _)).
Qed.

Lemma stable_old_objects outs w w' :
  stable (length (heap w)) outs w w' ->
  forall a o, heap w !! a = Some o -> heap w' !! a = Some o.
Proof.
  intros (_ & Hh & _) a o Ha. rewrite Hh; [exact Ha|].
  now apply lookup_lt_Some in Ha.
Qed.

(** X11. Whatever its outcome, a call of [topomap_mse] leaves every
    image object that existed before as it was (it closes only the page
    it loaded itself), and changes no file other than the comparison
    document: without [output_dir] no file at all. *)
Theorem topomap_mse_frame path metric params output_dir w r w' :
  topomap_mse path metric params output_dir w = (r, w') ->
  (forall a o, heap w !! a = Some o -> heap w' !! a = Some o)
  /\ (forall p, (forall dir, output_dir = Some dir -> p <> output_path dir path metric) ->
                fs w' !! p = fs w !! p)
  /\ (output_dir = None -> fs w' = fs w).
Proof.
  intros Hrun.
  pose proof (keeps_topomap_mse (length (heap w)) path metric params output_dir
                w r w' (Nat.le_refl _) Hrun) as Hs.
  split; [exact (stable_old_objects _ _ _ Hs)|].
  destruct Hs as (_ & _ & _ & _ & Hf). split.
  - intros p Hp. apply Hf. intros (dir & Hdir & Heq). exact (Hp dir Hdir Heq).
  - intros Hnone. apply map_eq. intros p. apply Hf.
    intros (dir & Hdir & _). congruence.
Qed.

Lemma keeps_collect n0 image_dir metric params output_dir image_paths :
  forall group_errors,
    keeps n0 (fun p => exists dir name,
                         output_dir = Some dir /\ In name image_paths
                         /\ p = output_path dir (Py.os_path_join image_dir name) metric)
      (collect image_dir metric params output_dir image_paths group_errors).
Proof.
  induction image_paths as [|name names IH]; intros group_errors.
  - apply (keeps_pure n0 _ (Ok _)).
  - simpl collect. apply keeps_bind.
    + intros w r w' Hn Hrun. eapply stable_weaken; cycle 1.
      * exact (keeps_topomap_mse n0 _ metric params output_dir w r w' Hn Hrun).
      * intros p (dir & Hd & ->). exists dir, name. simpl. auto.
    + intros errs w r w' Hn Hrun. eapply stable_weaken; cycle 1.
      * exact (IH _ w r w' Hn Hrun).
      * intros p (dir & n & Hd & Hin & ->). exists dir, n. simpl. auto.
Qed.

(** X12. Whatever its outcome, a call of
    [compute_topomap_image_quality] leaves every image object that
    existed before as it was, and changes no file other than the
    comparison documents of the entries of the directory: without
    [output_dir] no file at all. *)
Theorem dataset_frame image_dir metric params return_auc output_dir w r w' :
  compute_topomap_image_quality image_dir metric params return_auc output_dir w
    = (r, w') ->
  (forall a o, heap w !! a = Some o -> heap w' !! a = Some o)
  /\ (forall p,
        (forall dir names name,
           output_dir = Some dir -> listing w !! image_dir = Some names ->
           In name names ->
           p <> output_path dir (Py.os_path_join image_dir name) metric) ->
        fs w' !! p = fs w !! p)
  /\ (output_dir = None -> fs w' = fs w).
Proof.
  intros Hrun.
  set (outs := fun p => exists dir names name,
                 output_dir = Some dir /\ listing w !! image_dir = Some names
                 /\ In name names
                 /\ p = output_path dir (Py.os_path_join image_dir name) metric).
  assert (Hs : stable (length (heap w)) outs w w').
  { revert Hrun. unfold compute_topomap_image_quality, os_listdir.
    unfold mbind at 1, M_bind at 1.
    destruct (listing w !! image_dir) as [names|] eqn:Hdir;
      [|intros [= _ <-]; apply stable_refl].
    intros Hrun.
    assert (Hk : keeps (length (heap w))
                   (fun p => exists dir name,
                      output_dir = Some dir /\ In name names
                      /\ p = output_path dir (Py.os_path_join image_dir name) metric)
                   (group_errors ← collect image_dir metric params output_dir names [];
                    lift (aggregate group_errors return_auc))).
    { apply keeps_bind; [apply keeps_collect|]. intros g. apply keeps_pure. }
    eapply stable_weaken; cycle 1.
    - exact (Hk w r w' (Nat.le_refl _) Hrun).
    - intros p (dir & n & Hd & Hin & ->). exists dir, names, n. auto. }
  split; [exact (stable_old_objects _ _ _ Hs)|].
  destruct Hs as (_ & _ & _ & _ & Hf). split.
  - intros p Hp. apply Hf. intros (dir & names & name & Hd & Hl & Hin & Heq).
    exact (Hp dir names name Hd Hl Hin Heq).
  - intros Hnone. apply map_eq. intros p. apply Hf.
    intros (dir & names & name & Hd & _). congruence.
Qed.

End Frame.

(** ** The name of the comparison document *)

Section DocumentNames.

Context `{Imaging}.

Lemma append_cons c (a b : string) : String c a +:+ b = String c (a +:+ b).
Proof. reflexivity. Qed.

Lemma append_nil (b : string) : "" +:+ b = b.
Proof. reflexivity. Qed.

Lemma append_assoc (a b c : string) : (a +:+ b) +:+ c = a +:+ (b +:+ c).
Proof. induction a as [|x a IH]; [reflexivity|]. now rewrite !append_cons, IH. Qed.

(** Splitting at a separator between two strings splits each. *)
Lemma split_append (a b : string) :
  Py.split "/" (a +:+ String "/" b) = Py.split "/" a ++ Py.split "/" b.
Proof.
  induction a as [|c a IH].
  - rewrite append_nil. simpl. destruct (decide ("/"%char = "/"%char)); easy.
  - rewrite append_cons. simpl. rewrite IH.
    destruct (decide (c = "/"%char)); [reflexivity|].
    pose proof (split_nonempty "/" a) as Hne.
    destruct (Py.split "/" a) as [|piece pieces]; [contradiction|reflexivity].
Qed.

Lemma split_no_slash (b : string) : has_slash b = false -> Py.split "/" b = [b].
Proof.
  induction b as [|c b IH]; [reflexivity|]. simpl. intros Hb.
  apply orb_false_iff in Hb as [Hc Hb]. apply bool_decide_eq_false in Hc.
  destruct (decide (c = "/"%char)); [contradiction|]. now rewrite IH.
Qed.

Lemma file_name_no_slash (b : string) : has_slash b = false -> file_name b = b.
Proof. intros Hb. unfold file_name. now rewrite split_no_slash. Qed.

Lemma file_name_append (a b : string) :
  has_slash b = false -> file_name (a +:+ String "/" b) = b.
Proof.
  intros Hb. unfold file_name.
  rewrite split_append, (split_no_slash b Hb).
  now rewrite last_snoc.
Qed.

Lemma last_char (a : string) c :
  String.get (String.length a - 1) a = Some c -> exists a0, a = a0 +:+ String c "".
Proof.
  induction a as [|x a IH]; [discriminate|]. simpl String.length.
  replace (S (String.length a) - 1)%nat with (String.length a) by lia.
  destruct a as [|y a].
  - simpl. intros [= ->]. now exists ""%string.
  - simpl String.length in *.
    replace (S (String.length a) - 1)%nat with (String.length a) in IH by lia.
    change (String.get (S (String.length a)) (String x (String y a)))
      with (String.get (String.length a) (String y a)).
    intros Hget. destruct (IH Hget) as (a0 & Ha0).
    exists (String x a0). now rewrite append_cons, <- Ha0.
Qed.

Lemma startswith_no_slash (b : string) :
  has_slash b = false -> Py.startswith "/" b = false.
Proof.
  destruct b as [|c b]; [reflexivity|]. intros Hb. simpl in Hb.
  apply orb_false_iff in Hb as [Hc _]. apply bool_decide_eq_false in Hc.
  unfold Py.startswith.
  change (String.prefix "/" (String c b))
    with (if Ascii.ascii_dec "/" c then String.prefix "" b else false).
  destruct (Ascii.ascii_dec "/" c) as [E|_]; [now subst|reflexivity].
Qed.

(** X13. The comparison document of a directory entry is named after
    the entry alone: for a name without a slash, the last component of
    the path that [compute_topomap_image_quality] builds from
    [image_dir] and the name is the name, so the document is the name
    less its last four characters, the metric and [.pdf], whatever
    [image_dir] is.  Entries of the same name in two directories are
    saved to the same document. *)
Theorem entry_document_name image_dir dir name metric :
  has_slash name = false ->
  file_name (Py.os_path_join image_dir name) = name
  /\ output_path dir (Py.os_path_join image_dir name) metric
     = Py.os_path_join dir (Py.drop_last4 name +:+ "_" +:+ metric +:+ ".pdf").
Proof.
  intros Hname.
  assert (Hfile : file_name (Py.os_path_join image_dir name) = name).
  { unfold Py.os_path_join. rewrite startswith_no_slash by assumption.
    destruct (bool_decide (image_dir = "")) eqn:Hempty; simpl.
    - apply bool_decide_eq_true in Hempty. subst.
      rewrite append_nil. now apply file_name_no_slash.
    - destruct (Py.endswith_sep image_dir) eqn:Hsep.
      + unfold Py.endswith_sep in Hsep.
        destruct (String.get (String.length image_dir - 1) image_dir) as [c|] eqn:Hget;
          [|discriminate].
        apply bool_decide_eq_true in Hsep. subst c.
        destruct (last_char _ _ Hget) as (a0 & ->).
        rewrite append_assoc, append_cons, append_nil.
        now apply file_name_append.
      + change ("/" +:+ name) with (String "/" name).
        now apply file_name_append. }
  split; [exact Hfile|]. unfold output_path. now rewrite Hfile.
Qed.

(** X14. Two documents whose file names differ in their last four
    characters only share one comparison document: processed one after
    the other into the same [output_dir], the second run replaces the
    document of the first, and a single new file is left. *)
Theorem later_document_replaces_earlier k w dir params
    path1 im1 f1 rest1 path2 im2 f2 rest2 :
  fs w !! path1 = Some f1 -> pages_of f1 = im1 :: rest1 -> PIL.wf im1 ->
  fs w !! path2 = Some f2 -> pages_of f2 = im2 :: rest2 -> PIL.wf im2 ->
  Forall (valid k im1) params -> Forall (valid k im2) params -> params <> [] ->
  Py.drop_last4 (file_name path1) = Py.drop_last4 (file_name path2) ->
  writable w (output_path dir path1 (metric_name k)) = true ->
  output_path dir path1 (metric_name k) <> path2 ->
  exists errs1 w1 errs2 w2,
    topomap_mse path1 (metric_name k) params (Some dir) w = (Ok errs1, w1)
    /\ topomap_mse path2 (metric_name k) params (Some dir) w1 = (Ok errs2, w2)
    /\ fs w2 = <[output_path dir path1 (metric_name k)
                  := FigureDoc (comparison k im2 params)]> (fs w).
Proof.
  intros Hf1 Hp1 Hwf1 Hf2 Hp2 Hwf2 Hv1 Hv2 Hne Hnames Hw Hother.
  assert (Hout : output_path dir path2 (metric_name k)
                 = output_path dir path1 (metric_name k)).
  { unfold output_path. now rewrite Hnames. }
  pose proof (topomap_mse_saved k w path1 dir im1 params f1 rest1
                Hf1 Hp1 Hwf1 Hv1 Hne Hw) as Hrun1.
  set (w1 := after_saved w im1 rest1 (flat_map (allocated k im1) params)
               (output_path dir path1 (metric_name k)) (comparison k im1 params)) in *.
  assert (Hf2' : fs w1 !! path2 = Some f2).
  { unfold w1. simpl. now rewrite lookup_insert_ne. }
  assert (Hw' : writable w1 (output_path dir path2 (metric_name k)) = true).
  { rewrite Hout. exact Hw. }
  pose proof (topomap_mse_saved k w1 path2 dir im2 params f2 rest2
                Hf2' Hp2 Hwf2 Hv2 Hne Hw') as Hrun2.
  eexists _, _, _, _. split; [exact Hrun1|]. split; [exact Hrun2|].
  rewrite Hout. unfold w1. simpl. apply insert_insert_eq.
Qed.

End DocumentNames.

(** ** The further properties on concrete runs *)

Lemma error_curve_length_and_range_witness :
  exists errs,
    fst (topomap_mse (H := Simple.imaging) "maps/a.pdf" "blur_mse" [0; 1] None
           Sample.two_maps) = Ok errs
    /\ length errs = 2%nat /\ Forall in_range errs.
Proof.
  pose proof (topomap_mse_plain (H := Simple.imaging) Blur Sample.two_maps "maps/a.pdf"
                Sample.checker [0; 1] (SourceDoc [Sample.checker]) []
                eq_refl eq_refl checker_wf ltac:(repeat constructor)) as Hrun.
  destruct (error_curve_length_and_range (H := Simple.imaging) _ _ _ _ _ _ _ Hrun)
    as [Hlen Hrange].
  eexists. split; [exact (f_equal fst Hrun)|]. split; [exact Hlen|exact Hrange].
Defined.

Lemma error_curve_plain_witness :
  exists errs w',
    topomap_mse (H := Simple.imaging) "maps/a.pdf" "resize_mse" [0; 10] None
      Sample.two_maps = (Ok errs, w')
    /\ length errs = 2%nat
    /\ fs w' = fs Sample.two_maps.
Proof.
  destruct (error_curve_plain (H := Simple.imaging) Resize Sample.two_maps "maps/a.pdf"
              Sample.checker (SourceDoc [Sample.checker]) [] [0; 10]
              eq_refl eq_refl checker_wf)
    as (errs & w' & Hrun & Hvalues & Hfs & _).
  - repeat constructor.
  - exists errs, w'. split; [exact Hrun|]. split; [|exact Hfs].
    symmetry. exact (Forall2_length _ _ _ Hvalues).
Defined.

Lemma error_curve_repeatable_witness :
  fst (topomap_mse (H := Simple.imaging) "maps/a.pdf" "blur_mse" [0; 1] None
         Sample.two_maps)
  = fst (topomap_mse (H := Simple.imaging) "maps/a.pdf" "blur_mse" [0; 1] None
           Cases.broken).
Proof.
  apply (error_curve_repeatable (H := Simple.imaging) Blur Sample.two_maps Cases.broken
           "maps/a.pdf" Sample.checker (SourceDoc [Sample.checker]) [] [0; 1]
           eq_refl eq_refl eq_refl checker_wf).
  repeat constructor.
Defined.

Lemma output_dir_keeps_errors_witness :
  fst (topomap_mse (H := Simple.imaging) "maps/a.pdf" "blur_mse" [0; 1] (Some "out")
         Sample.two_maps)
  = fst (topomap_mse (H := Simple.imaging) "maps/a.pdf" "blur_mse" [0; 1] None
           Sample.two_maps).
Proof.
  apply (output_dir_keeps_errors (H := Simple.imaging) Blur Sample.two_maps "maps/a.pdf"
           "out" Sample.checker (SourceDoc [Sample.checker]) [] [0; 1]
           eq_refl eq_refl checker_wf).
  - repeat constructor.
  - discriminate.
  - reflexivity.
Defined.

Lemma error_curve_app_witness :
  exists errs1 errs2,
    fst (topomap_mse (H := Simple.imaging) "maps/a.pdf" "blur_mse" [0] None
           Sample.two_maps) = Ok errs1
    /\ fst (topomap_mse (H := Simple.imaging) "maps/a.pdf" "blur_mse" [1; 2] None
              Sample.two_maps) = Ok errs2
    /\ fst (topomap_mse (H := Simple.imaging) "maps/a.pdf" "blur_mse" [0; 1; 2] None
              Sample.two_maps) = Ok (errs1 ++ errs2).
Proof.
  apply (error_curve_app (H := Simple.imaging) Blur Sample.two_maps "maps/a.pdf"
           Sample.checker (SourceDoc [Sample.checker]) [] [0] [1; 2]
           eq_refl eq_refl checker_wf); repeat constructor.
Defined.

Lemma invalid_level_aborts_witness :
  exists w',
    topomap_mse (H := Simple.imaging) "maps/a.pdf" "resize_mse" [0; 11; 1] (Some "out")
      Sample.two_maps = (Err ValueError_resize, w')
    /\ fs w' = fs Sample.two_maps
    /\ figures w' = 1%nat.
Proof.
  destruct (invalid_level_aborts (H := Simple.imaging) Sample.two_maps "maps/a.pdf"
              Sample.checker (SourceDoc [Sample.checker]) [] [0] 11 [1] (Some "out")
              eq_refl eq_refl checker_wf)
    as (w' & Hrun & Hfs & _ & Hfig).
  - repeat constructor.
  - lia.
  - exists w'. split; [exact Hrun|]. split; [exact Hfs|exact Hfig].
Defined.


Lemma quality_range_witness :
  exists quality,
    aggregate [[2; 4]; [6; 8]]%Q true = Ok quality
    /\ Forall in_range (take 2 quality).
Proof.
  destruct (quality_range 2 [2; 4]%Q [[6; 8]%Q] true) as (quality & Hagg & Hrange & _).
  - repeat constructor.
  - repeat constructor; unfold Qle; simpl; lia.
  - intros _. lia.
  - exists quality. split; [exact Hagg|exact Hrange].
Defined.

Lemma dataset_quality_plain_witness :
  exists quality w',
    compute_topomap_image_quality (H := Simple.imaging) "maps" "blur_mse" [0; 1] true None
      Sample.two_maps = (Ok quality, w')
    /\ length quality = 3%nat
    /\ fs w' = fs Sample.two_maps.
Proof.
  destruct (dataset_quality_plain (H := Simple.imaging) Blur "maps" [0; 1] true
              ["a.pdf"; "b.pdf"] Sample.two_maps eq_refl)
    as (quality & w' & Hrun & Hlen & _ & Hfs).
  - discriminate.
  - repeat match goal with |- Forall _ _ => constructor end.
    + exists Sample.checker. split; [|split; [exact checker_wf|]].
      * exists (SourceDoc [Sample.checker]), []. split; reflexivity.
      * repeat constructor.
    + exists Sample.ramp. split; [|split; [exact ramp_wf|]].
      * exists (SourceDoc [Sample.ramp]), []. split; reflexivity.
      * repeat constructor.
  - intros _. simpl. lia.
  - exists quality, w'. split; [exact Hrun|]. split; [exact Hlen|exact Hfs].
Defined.

Lemma dataset_aborts_at_first_failure_witness :
  exists w',
    compute_topomap_image_quality (H := Simple.imaging) "maps" "blur_mse" [0] false
      (Some "out") Cases.broken = (Err PDFPageCountError, w')
    /\ is_Some (fs w' !! "out/a_blur_mse.pdf")
    /\ fs w' !! "out/b_blur_mse.pdf" = None.
Proof.
  pose proof (topomap_mse_saved (H := Simple.imaging) Blur Cases.broken "maps/a.pdf" "out"
                Sample.checker [0] (SourceDoc [Sample.checker]) []
                eq_refl eq_refl checker_wf ltac:(repeat constructor)
                ltac:(discriminate) eq_refl) as Hrun.
  eexists. split.
  - eapply (dataset_aborts_at_first_failure (H := Simple.imaging) "maps" "blur_mse" [0]
              false (Some "out") ["a.pdf"] "notes.txt" ["b.pdf"] Cases.broken).
    + reflexivity.
    + eapply curves_cons; [exact Hrun|apply curves_nil].
    + apply topomap_mse_unreadable. reflexivity.
  - split; [eexists; reflexivity|reflexivity].
Defined.

Lemma topomap_mse_frame_witness :
  let r := topomap_mse (H := Simple.imaging) "maps/a.pdf" "blur_mse" [0] (Some "out")
             Sample.two_maps in
  fs (snd r) !! "maps/b.pdf" = fs Sample.two_maps !! "maps/b.pdf".
Proof.
  intros r.
  destruct (topomap_mse_frame (H := Simple.imaging) "maps/a.pdf" "blur_mse" [0]
              (Some "out") Sample.two_maps (fst r) (snd r)
              (surjective_pairing r)) as (_ & Hfs & _).
  apply Hfs. intros dir [= <-]. discriminate.
Defined.

Lemma dataset_frame_witness :
  let r := compute_topomap_image_quality (H := Simple.imaging) "maps" "blur_mse" [0; 11]
             false None Sample.two_maps in
  fs (snd r) = fs Sample.two_maps.
Proof.
  intros r.
  destruct (dataset_frame (H := Simple.imaging) "maps" "blur_mse" [0; 11] false None
              Sample.two_maps (fst r) (snd r) (surjective_pairing r)) as (_ & _ & Hfs).
  now apply Hfs.
Defined.

Lemma entry_document_name_witness :
  file_name (Py.os_path_join "maps/" "a.pdf") = "a.pdf"
  /\ output_path "out" (Py.os_path_join "maps/" "a.pdf") "blur_mse"
     = Py.os_path_join "out" ("a" +:+ "_" +:+ "blur_mse" +:+ ".pdf").
Proof.
  exact (entry_document_name "maps/" "out" "a.pdf" "blur_mse" eq_refl).
Defined.

Lemma later_document_replaces_earlier_witness :
  exists errs1 w1 errs2 w2,
    topomap_mse (H := Simple.imaging) "maps/a.pdf" "blur_mse" [0] (Some "out")
      Cases.twins = (Ok errs1, w1)
    /\ topomap_mse (H := Simple.imaging) "scans/a.pdf" "blur_mse" [0] (Some "out") w1
       = (Ok errs2, w2)
    /\ fs w2 = <["out/a_blur_mse.pdf"
                 := FigureDoc (comparison (H := Simple.imaging) Blur Sample.ramp [0])]>
                 (fs Cases.twins).
Proof.
  apply (later_document_replaces_earlier (H := Simple.imaging) Blur Cases.twins "out" [0]
           "maps/a.pdf" Sample.checker (SourceDoc [Sample.checker]) []
           "scans/a.pdf" Sample.ramp (SourceDoc [Sample.ramp]) []
           eq_refl eq_refl checker_wf eq_refl eq_refl ramp_wf).
  - repeat constructor.
  - repeat constructor.
  - discriminate.
  - reflexivity.
  - reflexivity.
  - discriminate.
Defined.
